(** * Window placement daemon: a shallow embedding of [daemon.py]

    The development follows the layout of the source: the [Cell] and
    [WindowAttributes] data classes of [settings.py], the [MouseTracker]
    and [PlacementManager] classes of [daemon.py], then the module-level
    functions [winEnumHandler], [processing_detected_windows],
    [processing_window_change_pos] and one iteration of [resize_window].

    Conventions.
    - Python integers are [Z].  Window handles are integers; [0] is the
      value a cell's [hwnd] field holds when no window owns it.
    - The [Cell] objects of the configured grid are mutable and shared by
      reference between the grid list and the handle-to-cell dictionary.
      The grid list is the object store: a reference to a [Cell] is its
      position in the grid, and the dictionary maps a handle to such a
      position.  Writing a cell's field updates the store, so every alias
      sees it.
    - [set], [dict] with unordered use are [gset]/[gmap]; the dictionary
      that is iterated ([_hwnd_to_name]) is an association list kept in
      insertion order.
    - [time.time()] is read at most once per call of the gesture detector;
      the reading is an explicit argument, in integral clock units.
    - Operating-system queries are explicit arguments as well. *)

From stdpp Require Import base gmap sets list strings.
From Stdlib Require Import ZArith Lia.

Local Open Scope Z_scope.

Set Warnings "-clear-no-such-hyp".

(** ** Exceptions *)

Inductive exn := IndexError | KeyError.

Inductive result (A : Type) :=
| Ok (a : A)
| Raise (e : exn).
Arguments Ok {A} a.
Arguments Raise {A} e.

#[global] Instance result_bind : MBind result :=
  λ A B k r, match r with
             | Ok a => k a
             | Raise e => Raise e
             end.

(** ** settings.py: data classes *)

Module Cell.
Record t := mk { id : Z; x : Z; y : Z; hwnd : Z }.

Definition set_hwnd (h : Z) (c : t) : t :=
  {| id := id c; x := x c; y := y c; hwnd := h |}.
End Cell.

Module WindowAttributes.
Record t := mk {
  process_name : string;
  width : Z;
  height : Z;
  x : Z;
  y : Z;
  use_coordinates : bool;
  exclude_windows : list string;
  additional_width : Z;
  additional_height : Z
}.

Definition set_additional_width (v : Z) (w : t) : t :=
  {| process_name := process_name w; width := width w; height := height w;
     x := x w; y := y w; use_coordinates := use_coordinates w;
     exclude_windows := exclude_windows w;
     additional_width := v; additional_height := additional_height w |}.

Definition set_additional_height (v : Z) (w : t) : t :=
  {| process_name := process_name w; width := width w; height := height w;
     x := x w; y := y w; use_coordinates := use_coordinates w;
     exclude_windows := exclude_windows w;
     additional_width := additional_width w; additional_height := v |}.
End WindowAttributes.

(** ** daemon.py: class MouseTracker *)

Module MouseTracker.
Record t := mk {
  is_holding : bool;
  hold_start_time : Z;
  hold_threshold : Z
}.

(** [__init__]: the start time is the clock reading at construction. *)
Definition init (now hold_threshold : Z) : t :=
  {| is_holding := false; hold_start_time := now;
     hold_threshold := hold_threshold |}.

(** [is_left_mouse_button_hold]; [down] is the result of
    [is_left_mouse_button_down()], [now] the value of [time.time()] in the
    branch that reads it. *)
Definition is_left_mouse_button_hold (down : bool) (now : Z) (m : t)
  : bool * t :=
  if down then
    if negb (is_holding m) then
      (false, {| is_holding := true; hold_start_time := now;
                 hold_threshold := hold_threshold m |})
    else if hold_threshold m <=? now - hold_start_time m then
      (true, m)
    else
      (false, m)
  else
    if is_holding m then
      if now - hold_start_time m <? hold_threshold m then
        (false, m)
      else
        (false, {| is_holding := false;
                   hold_start_time := hold_start_time m;
                   hold_threshold := hold_threshold m |})
    else
      (false, m).

(** A run of calls, one per tick; each sample is the button state and the
    clock reading of that call.  Returns the values reported, in order. *)
Fixpoint samples (tr : list (bool * Z)) (m : t) : list bool * t :=
  match tr with
  | [] => ([], m)
  | (down, now) :: tr' =>
      let '(r, m1) := is_left_mouse_button_hold down now m in
      let '(rs, m2) := samples tr' m1 in
      (r :: rs, m2)
  end.
End MouseTracker.

(** ** daemon.py: class PlacementManager *)

Module PlacementManager.
Record t := mk {
  grid : list Cell.t;                              (* _settings_manager.grid *)
  using_grid : bool;                               (* settings.using_grid *)
  windows_attributes_name : gset string;           (* _windows_attributes_name *)
  windows_attributes_dict : gmap string WindowAttributes.t;
  set_pos_calls : gmap Z Z;                        (* _set_pos_calls *)
  set_pos_max_count : Z;                           (* _set_pos_max_count *)
  hwnd_to_cels : gmap Z nat;                       (* _hwnd_to_cels *)
  exclude_window_names : gmap string (gset string);
  hwnd_to_name : list (Z * string);                (* _hwnd_to_name *)
  all_hwnd : gset Z
}.

Definition with_grid (g : list Cell.t) (p : t) : t :=
  mk g (using_grid p) (windows_attributes_name p) (windows_attributes_dict p)
     (set_pos_calls p) (set_pos_max_count p) (hwnd_to_cels p)
     (exclude_window_names p) (hwnd_to_name p) (all_hwnd p).

Definition with_windows_attributes_dict
    (d : gmap string WindowAttributes.t) (p : t) : t :=
  mk (grid p) (using_grid p) (windows_attributes_name p) d
     (set_pos_calls p) (set_pos_max_count p) (hwnd_to_cels p)
     (exclude_window_names p) (hwnd_to_name p) (all_hwnd p).

Definition with_set_pos_calls (c : gmap Z Z) (p : t) : t :=
  mk (grid p) (using_grid p) (windows_attributes_name p)
     (windows_attributes_dict p) c (set_pos_max_count p) (hwnd_to_cels p)
     (exclude_window_names p) (hwnd_to_name p) (all_hwnd p).

Definition with_hwnd_to_cels (m : gmap Z nat) (p : t) : t :=
  mk (grid p) (using_grid p) (windows_attributes_name p)
     (windows_attributes_dict p) (set_pos_calls p) (set_pos_max_count p) m
     (exclude_window_names p) (hwnd_to_name p) (all_hwnd p).

Definition with_hwnd_to_name (l : list (Z * string)) (p : t) : t :=
  mk (grid p) (using_grid p) (windows_attributes_name p)
     (windows_attributes_dict p) (set_pos_calls p) (set_pos_max_count p)
     (hwnd_to_cels p) (exclude_window_names p) l (all_hwnd p).

Definition with_all_hwnd (s : gset Z) (p : t) : t :=
  mk (grid p) (using_grid p) (windows_attributes_name p)
     (windows_attributes_dict p) (set_pos_calls p) (set_pos_max_count p)
     (hwnd_to_cels p) (exclude_window_names p) (hwnd_to_name p) s.

(** [__init__]: the tracked names, the name-to-attributes dictionary (a
    later entry for the same process replaces an earlier one) and the
    per-process exclusion sets (a [defaultdict(set)], accumulated). *)
Definition add_excludes (w : WindowAttributes.t)
    (ex : gmap string (gset string)) : gmap string (gset string) :=
  foldl (λ ex name,
           <[WindowAttributes.process_name w :=
               {[name]} ∪ default ∅ (ex !! WindowAttributes.process_name w)]> ex)
        ex (WindowAttributes.exclude_windows w).

Definition init (windows_attributes : list WindowAttributes.t)
    (using_grid : bool) (grid : list Cell.t) : t :=
  {| grid := grid;
     using_grid := using_grid;
     windows_attributes_name :=
       list_to_set (WindowAttributes.process_name <$> windows_attributes);
     windows_attributes_dict :=
       foldl (λ d w, <[WindowAttributes.process_name w := w]> d)
             ∅ windows_attributes;
     set_pos_calls := ∅;
     set_pos_max_count := 5;
     hwnd_to_cels := ∅;
     exclude_window_names := foldl (λ ex w, add_excludes w ex) ∅ windows_attributes;
     hwnd_to_name := [];
     all_hwnd := ∅ |}.

(** [need_set_pos_call]: [setdefault] stores the counter when absent. *)
Definition need_set_pos_call (hwnd : Z) (p : t) : bool * t :=
  match set_pos_calls p !! hwnd with
  | Some n => (bool_decide (n < set_pos_max_count p), p)
  | None =>
      (bool_decide (0 < set_pos_max_count p),
       with_set_pos_calls (<[hwnd := 0]> (set_pos_calls p)) p)
  end.

(** [increase_set_pos_call_count]: [d[hwnd] += 1] raises [KeyError] on an
    absent key. *)
Definition increase_set_pos_call_count (hwnd : Z) (p : t) : result t :=
  match set_pos_calls p !! hwnd with
  | Some n => Ok (with_set_pos_calls (<[hwnd := n + 1]> (set_pos_calls p)) p)
  | None => Raise KeyError
  end.

(** [is_exclude_window]: reading a [defaultdict] inserts the empty set for
    an absent key. *)
Definition is_exclude_window (proc_name window_name : string) (p : t)
  : bool * t :=
  match exclude_window_names p !! proc_name with
  | Some s => (bool_decide (window_name ∈ s), p)
  | None =>
      (false,
       mk (grid p) (using_grid p) (windows_attributes_name p)
          (windows_attributes_dict p) (set_pos_calls p) (set_pos_max_count p)
          (hwnd_to_cels p) (<[proc_name := ∅]> (exclude_window_names p))
          (hwnd_to_name p) (all_hwnd p))
  end.

(** Field reads and writes through a cell reference. *)
Definition hwnd_at (p : t) (cell : nat) : Z :=
  default 0 (Cell.hwnd <$> grid p !! cell).
Definition x_at (p : t) (cell : nat) : Z :=
  default 0 (Cell.x <$> grid p !! cell).
Definition y_at (p : t) (cell : nat) : Z :=
  default 0 (Cell.y <$> grid p !! cell).

(** [cell.hwnd = h] *)
Definition write_hwnd (cell : nat) (h : Z) (p : t) : t :=
  with_grid (alter (Cell.set_hwnd h) cell (grid p)) p.

(** [link_cell] *)
Definition link_cell (hwnd : Z) (cell : nat) (p : t) : t :=
  let p := write_hwnd cell hwnd p in
  with_hwnd_to_cels (<[hwnd := cell]> (hwnd_to_cels p)) p.

(** [unlink_cell] *)
Definition unlink_cell (hwnd : Z) (cell : nat) (p : t) : t :=
  let p := write_hwnd cell 0 p in
  with_hwnd_to_cels (delete hwnd (hwnd_to_cels p)) p.

(** The scan of [get_cell]: the first cell, in declared order, whose owner
    is not in [all_hwnd]. *)
Definition free_cell (p : t) : option nat :=
  fst <$> list_find (λ c, Cell.hwnd c ∉ all_hwnd p) (grid p).

(** [get_cell] *)
Definition get_cell (hwnd : Z) (p : t) : option nat * t :=
  match hwnd_to_cels p !! hwnd with
  | Some cell => (Some cell, p)
  | None =>
      match free_cell p with
      | Some cell => (Some cell, link_cell hwnd cell p)
      | None => (None, p)
      end
  end.

(** [search_nearest_cell].  The source compares
    [sqrt(dx ** 2 + dy ** 2)] of exact integers; the square root is
    increasing, so the comparison is carried out on the sums of squares. *)
Definition distance2 (x y : Z) (c : Cell.t) : Z :=
  (x - Cell.x c) ^ 2 + (y - Cell.y c) ^ 2.

Fixpoint nearest_from (x y : Z) (cells : list Cell.t) (i : nat)
    (cur_cell : nat) (min_distance : Z) : nat :=
  match cells with
  | [] => cur_cell
  | c :: cells' =>
      if distance2 x y c <? min_distance
      then nearest_from x y cells' (S i) i (distance2 x y c)
      else nearest_from x y cells' (S i) cur_cell min_distance
  end.

Definition search_nearest_cell (x y : Z) (p : t) : result nat :=
  match grid p with
  | [] => Raise IndexError
  | c0 :: _ => Ok (nearest_from x y (grid p) 0 0 (distance2 x y c0))
  end.

(** [move_to_cell] *)
Definition move_to_cell (hwnd : Z) (dest_cell : nat) (p : t) : t :=
  if decide (hwnd_at p dest_cell = hwnd) then p
  else
    let '(curr_cell, p) := get_cell hwnd p in
    match curr_cell with
    | Some curr_cell =>
        if decide (x_at p curr_cell = x_at p dest_cell
                   ∧ y_at p curr_cell = y_at p dest_cell)
        then p
        else
          let p := write_hwnd curr_cell 0 p in
          if decide (hwnd_at p dest_cell = 0) then link_cell hwnd dest_cell p
          else
            let p := link_cell (hwnd_at p dest_cell) curr_cell p in
            link_cell hwnd dest_cell p
    | None =>
        if decide (hwnd_at p dest_cell = 0) then link_cell hwnd dest_cell p
        else p
    end.

(** [register_process]: a [dict] keeps the position of a key that is
    already present. *)
Fixpoint dict_set (k : Z) (v : string) (l : list (Z * string))
  : list (Z * string) :=
  match l with
  | [] => [(k, v)]
  | (k', v') :: l' =>
      if decide (k' = k) then (k, v) :: l' else (k', v') :: dict_set k v l'
  end.

Definition register_process (hwnd : Z) (process_name : string) (p : t) : t :=
  with_hwnd_to_name (dict_set hwnd process_name (hwnd_to_name p)) p.

Definition registered_processes_iter (p : t) : list (Z * string) :=
  hwnd_to_name p.

Definition is_registered_hwnd (hwnd : Z) (p : t) : bool :=
  bool_decide (hwnd ∈ (hwnd_to_name p).*1).

Definition reset (p : t) : t :=
  with_hwnd_to_name [] (with_all_hwnd ∅ p).
End PlacementManager.

(** ** The operating-system services the daemon consumes *)

Module RECT.
Record t := mk { left : Z; top : Z; right : Z; bottom : Z }.
End RECT.

Record WindowInfo := mkWindowInfo {
  IsWindowVisible : bool;
  GetWindowText : string;
  (** The image name [Path(GetModuleFileNameEx(handle, 0)).name], or [None]
      when [OpenProcess] raises. *)
  process_image : option string
}.

Record OS := mkOS {
  EnumWindows : list Z;                    (* top-level windows, in order *)
  window : Z → WindowInfo;
  DwmGetWindowAttribute : Z → RECT.t;        (* extended frame bounds *)
  GetWindowRect : Z → option RECT.t;         (* [None]: the call raises *)
  GetCursorPos : Z * Z;
  WindowFromPoint : Z;
  left_button_down : bool;                 (* GetKeyState(0x01) & 0x8000 > 0 *)
  time : Z
}.

Definition SWP_NOMOVE : Z := 2.
Definition SWP_SHOWWINDOW : Z := 64.
Definition HWND_NOTOPMOST : Z := -2.

(** The arguments of one [win32gui.SetWindowPos] call. *)
Record SetWindowPos := mkSetWindowPos {
  swp_hwnd : Z; swp_insert_after : Z;
  swp_x : Z; swp_y : Z; swp_cx : Z; swp_cy : Z;
  swp_flags : Z
}.

(** The two places of [processing_detected_windows] that call
    [SetWindowPos]: the call guarded by [need_set_pos_call], and the
    corrective call at the end of the loop body. *)
Inductive call_site := GuardedCall | CorrectiveCall.

#[global] Instance call_site_eq_dec : EqDecision call_site.
Proof. solve_decision. Defined.

Abbreviation call_log := (list (call_site * SetWindowPos)).

(** ** daemon.py: module-level functions *)

Import PlacementManager.

Definition winEnumHandler (os : OS) (hwnd : Z) (placement_manager : PlacementManager.t)
  : PlacementManager.t :=
  if IsWindowVisible (window os hwnd) then
    let pm := with_all_hwnd ({[hwnd]} ∪ all_hwnd placement_manager) placement_manager in
    let window_name := GetWindowText (window os hwnd) in
    match process_image (window os hwnd) with
    | None => pm
    | Some proc_name =>
        if bool_decide (proc_name ∈ windows_attributes_name pm) then
          let '(excluded, pm) := is_exclude_window proc_name window_name pm in
          if negb excluded then register_process hwnd proc_name pm else pm
        else pm
    end
  else placement_manager.

(** The grid branch of the loop body: target position, whether the current
    position is right, and the positioning flag. *)
Definition grid_target (current_left current_top : Z)
    (window_attributes : WindowAttributes.t) (hwnd : Z) (pm : PlacementManager.t)
  : (Z * Z * bool * bool * Z) * PlacementManager.t :=
  if using_grid pm then
    let '(cell, pm) := get_cell hwnd pm in
    match cell with
    | Some cell =>
        ((x_at pm cell, y_at pm cell,
          bool_decide (current_left = x_at pm cell),
          bool_decide (current_top = y_at pm cell),
          SWP_SHOWWINDOW), pm)
    | None =>
        ((WindowAttributes.x window_attributes,
          WindowAttributes.y window_attributes, true, true, SWP_NOMOVE), pm)
    end
  else
    ((WindowAttributes.x window_attributes,
      WindowAttributes.y window_attributes, true, true, SWP_NOMOVE), pm).

(** The guarded first call of the loop body. *)
Definition guarded_call (hwnd : Z) (window_attributes : WindowAttributes.t)
    (pm : PlacementManager.t) : result (PlacementManager.t * call_log) :=
  let '(need, pm) := need_set_pos_call hwnd pm in
  if need then
    let move_window :=
      if WindowAttributes.use_coordinates window_attributes && negb (using_grid pm)
      then SWP_SHOWWINDOW else SWP_NOMOVE in
    pm ← increase_set_pos_call_count hwnd pm;
    Ok (pm, [(GuardedCall,
              mkSetWindowPos hwnd HWND_NOTOPMOST
                (WindowAttributes.x window_attributes)
                (WindowAttributes.y window_attributes)
                (WindowAttributes.width window_attributes)
                (WindowAttributes.height window_attributes) move_window)])
  else Ok (pm, []).

(** The size measurement: the attributes object after the additional
    width and height have been recomputed. *)
Definition measure (rect : RECT.t) (window_attributes : WindowAttributes.t)
  : bool * bool * WindowAttributes.t :=
  let rect_width := RECT.right rect - RECT.left rect in
  let rect_height := RECT.bottom rect - RECT.top rect in
  let is_correct_width :=
    bool_decide (rect_width = WindowAttributes.width window_attributes) in
  let is_correct_height :=
    bool_decide (rect_height = WindowAttributes.height window_attributes) in
  let wa := window_attributes in
  let wa :=
    if negb is_correct_width then
      let a := WindowAttributes.width wa - rect_width in
      WindowAttributes.set_additional_width (if 0 <? a then a else 0) wa
    else wa in
  let wa :=
    if negb is_correct_height then
      let a := WindowAttributes.height wa - rect_height in
      WindowAttributes.set_additional_height (if 0 <? a then a else 0) wa
    else wa in
  (is_correct_width, is_correct_height, wa).

(** One iteration of the loop of [processing_detected_windows]. *)
Definition process_window (os : OS) (hwnd : Z) (proc_name : string)
    (pm : PlacementManager.t) : result (PlacementManager.t * call_log) :=
  match windows_attributes_dict pm !! proc_name with
  | None => Raise KeyError
  | Some window_attributes =>
      '(pm, log1) ← guarded_call hwnd window_attributes pm;
      let '(is_correct_width, is_correct_height, wa) :=
        measure (DwmGetWindowAttribute os hwnd) window_attributes in
      (* the attributes object is mutated in place *)
      let pm := with_windows_attributes_dict
                  (<[proc_name := wa]> (windows_attributes_dict pm)) pm in
      match GetWindowRect os hwnd with
      | None => Ok (pm, log1)                         (* continue *)
      | Some r =>
          let '((left_, top_, is_correct_left, is_correct_top, move_window), pm) :=
            grid_target (RECT.left r) (RECT.top r) wa hwnd pm in
          if negb is_correct_width || negb is_correct_height
             || negb is_correct_left || negb is_correct_top
          then
            Ok (pm, log1 ++
                    [(CorrectiveCall,
                      mkSetWindowPos hwnd HWND_NOTOPMOST left_ top_
                        (WindowAttributes.width wa + WindowAttributes.additional_width wa)
                        (WindowAttributes.height wa + WindowAttributes.additional_height wa)
                        move_window)])
          else Ok (pm, log1)
      end
  end.

Fixpoint process_windows (os : OS) (registered : list (Z * string))
    (pm : PlacementManager.t) : result (PlacementManager.t * call_log) :=
  match registered with
  | [] => Ok (pm, [])
  | (hwnd, proc_name) :: rest =>
      '(pm, log1) ← process_window os hwnd proc_name pm;
      '(pm, log2) ← process_windows os rest pm;
      Ok (pm, log1 ++ log2)
  end.

Definition processing_detected_windows (os : OS) (pm : PlacementManager.t)
  : result (PlacementManager.t * call_log) :=
  process_windows os (registered_processes_iter pm) pm.

Definition processing_window_change_pos (os : OS) (pm : PlacementManager.t)
  : result PlacementManager.t :=
  let cur_window_hwnd := WindowFromPoint os in
  if negb (is_registered_hwnd cur_window_hwnd pm) || negb (using_grid pm) then Ok pm
  else
    match GetWindowRect os cur_window_hwnd with
    | None => Ok pm
    | Some r =>
        cell ← search_nearest_cell (RECT.left r) (RECT.top r) pm;
        Ok (move_to_cell cur_window_hwnd cell pm)
    end.

(** [win32gui.EnumWindows(winEnumHandler, placement_manager)] *)
Definition enum_windows (os : OS) (pm : PlacementManager.t) : PlacementManager.t :=
  foldl (λ pm hwnd, winEnumHandler os hwnd pm) pm (EnumWindows os).

(** One iteration of the loop of [resize_window]. *)
Record loop_state := mkLoop {
  placement_manager : PlacementManager.t;
  mouse_tracker : MouseTracker.t;
  prev_is_hold : bool
}.

Definition resize_window_tick (os : OS) (st : loop_state)
  : result (loop_state * call_log) :=
  let pm := enum_windows os (placement_manager st) in
  let '(is_hold, mt) :=
    MouseTracker.is_left_mouse_button_hold (left_button_down os) (time os)
      (mouse_tracker st) in
  '(pm, log) ← (if negb (prev_is_hold st) && negb is_hold
                then processing_detected_windows os pm else Ok (pm, []));
  pm ← (if prev_is_hold st && negb is_hold
        then processing_window_change_pos os pm else Ok pm);
  Ok (mkLoop (reset pm) mt is_hold, log).

Fixpoint resize_window (ticks : list OS) (st : loop_state)
  : result (loop_state * list call_log) :=
  match ticks with
  | [] => Ok (st, [])
  | os :: ticks' =>
      '(st, log) ← resize_window_tick os st;
      '(st, logs) ← resize_window ticks' st;
      Ok (st, log :: logs)
  end.

(** ** settings.py: ordering, saving and loading of the grid *)

(** [Cell.__lt__] *)
Definition Cell_lt (self other : Cell.t) : bool :=
  if negb (Cell.x self =? Cell.x other) then Cell.x self <? Cell.x other
  else Cell.y self <? Cell.y other.

Definition Cell_set_id (i : Z) (c : Cell.t) : Cell.t :=
  Cell.mk i (Cell.x c) (Cell.y c) (Cell.hwnd c).

(** [save_settings]: the loop that rearranges the ids before the dump,
    [grid[i].id = i + 1]. *)
Definition save_settings_ids (grid : list Cell.t) : list Cell.t :=
  imap (λ i c, Cell_set_id (Z.of_nat i + 1) c) grid.

(** The two forms [Settings.grid] can take: a list of one-entry mappings,
    each an association list in insertion order, or a list of cells. *)
Inductive grid_setting :=
| GridOfDicts (l : list (list (string * Cell.t)))
| GridOfCells (l : list Cell.t).

(** [list.sort(key=lambda x: x.id)]: the sort is stable, so its result is
    the one of an insertion sort that puts a cell in front of the first
    later cell whose id is not smaller. *)
Fixpoint insert_by_id (c : Cell.t) (l : list Cell.t) : list Cell.t :=
  match l with
  | [] => [c]
  | d :: l' =>
      if Cell.id c <=? Cell.id d then c :: d :: l' else d :: insert_by_id c l'
  end.

Fixpoint sort_by_id (l : list Cell.t) : list Cell.t :=
  match l with
  | [] => []
  | c :: l' => insert_by_id c (sort_by_id l')
  end.

(** [list(map(lambda x: next(iter(x.values())), grid))]: [next] on an empty
    mapping raises [StopIteration] inside [map], which ends the list that
    [list] builds. *)
Fixpoint first_values (l : list (list (string * Cell.t))) : list Cell.t :=
  match l with
  | [] => []
  | d :: l' =>
      match d with
      | [] => []
      | (_, c) :: _ => c :: first_values l'
      end
  end.

(** [SettingsManager._prepare_grid], called by [__init__]; what the [grid]
    property then returns. *)
Definition prepare_grid (g : grid_setting) : list Cell.t :=
  match g with
  | GridOfDicts l => sort_by_id (first_values l)
  | GridOfCells l => l
  end.

(** ** gui/elements/grid_tab.py and cell.py: editing the grid

    The handlers act on the list [SettingsManager.grid] returns, whose
    cells are distinct objects.  The selection of the list box is [None]
    when nothing is selected. *)

(** [GridTabWindow.up_cell]: the ids of the two cells are exchanged, then
    the cells. *)
Definition up_cell (cur_selection : option nat) (grid : list Cell.t)
  : result (list Cell.t) :=
  match cur_selection with
  | None => Ok grid
  | Some cell_idx =>
      if negb (cell_idx =? 0)%nat && (1 <? length grid)%nat then
        match grid !! (cell_idx - 1)%nat, grid !! cell_idx with
        | Some prev, Some cur =>
            Ok (<[cell_idx := Cell_set_id (Cell.id cur) prev]>
                  (<[(cell_idx - 1)%nat := Cell_set_id (Cell.id prev) cur]> grid))
        | _, _ => Raise IndexError
        end
      else Ok grid
  end.

(** [GridTabWindow.down_cell]; [listbox_size] is [cells_listbox.size()]. *)
Definition down_cell (cur_selection : option nat) (listbox_size : nat)
    (grid : list Cell.t) : result (list Cell.t) :=
  match cur_selection with
  | None => Ok grid
  | Some cell_idx =>
      if negb (Z.of_nat cell_idx =? Z.of_nat listbox_size - 1)
         && (1 <? length grid)%nat then
        match grid !! (cell_idx + 1)%nat, grid !! cell_idx with
        | Some next, Some cur =>
            Ok (<[cell_idx := Cell_set_id (Cell.id cur) next]>
                  (<[(cell_idx + 1)%nat := Cell_set_id (Cell.id next) cur]> grid))
        | _, _ => Raise IndexError
        end
      else Ok grid
  end.

(** [GridTabWindow.remove_cell]: [grid.pop(index)]. *)
Definition remove_cell (cur_selection : option nat) (grid : list Cell.t)
  : result (list Cell.t) :=
  match cur_selection with
  | None => Ok grid
  | Some cell_idx =>
      match grid !! cell_idx with
      | Some _ => Ok (delete cell_idx grid)
      | None => Raise IndexError
      end
  end.

(** [CellElement]: the constructor followed by [save_cell], the list not
    being changed in between.  [cell_idx] is negative for a new cell;
    [x_entry] and [y_entry] are what [int] makes of the two entries, [None]
    when it raises [ValueError].  The cell being edited is the object in
    the list, so a failure on the second entry leaves the first coordinate
    written.  [SaveIndexError] is the [IndexError] of the constructor. *)
Inductive save_outcome :=
| Saved (cells_list : list Cell.t)
| SaveValueError (cells_list : list Cell.t)
| SaveIndexError.

Definition save_cell (cells_list : list Cell.t) (cell_idx : Z)
    (x_entry y_entry : option Z) : save_outcome :=
  if 0 <=? cell_idx then
    match cells_list !! Z.to_nat cell_idx with
    | None => SaveIndexError
    | Some cell =>
        match x_entry with
        | None => SaveValueError cells_list
        | Some x =>
            let cell := Cell.mk (Cell.id cell) x (Cell.y cell) (Cell.hwnd cell) in
            let cells_list := <[Z.to_nat cell_idx := cell]> cells_list in
            match y_entry with
            | None => SaveValueError cells_list
            | Some y =>
                Saved (<[Z.to_nat cell_idx :=
                           Cell.mk (Cell.id cell) x y (Cell.hwnd cell)]> cells_list)
            end
        end
    end
  else
    match x_entry, y_entry with
    | Some x, Some y =>
        let id := match last cells_list with
                  | Some c => Cell.id c + 1
                  | None => 1
                  end in
        Saved (cells_list ++ [Cell.mk id x y 0])
    | _, _ => SaveValueError cells_list
    end.

(** ** Predicates used in the statements *)

(** *** Gesture detector *)




(** *** Bindings *)











(** *** Discovery *)

(** A window that [winEnumHandler] registers: visible, its process can be
    queried, the image name is tracked and the title is not excluded for
    that process. *)
Definition eligible (os : OS) (pm : PlacementManager.t) (hwnd : Z) : Prop :=
  IsWindowVisible (window os hwnd) = true
  ∧ ∃ name, process_image (window os hwnd) = Some name
            ∧ name ∈ windows_attributes_name pm
            ∧ GetWindowText (window os hwnd)
                ∉ default ∅ (exclude_window_names pm !! name).

(** *** Enforcement *)

(** The value of the per-handle call counter; a handle that has no entry
    yet counts as [0], the value [setdefault] gives it. *)
Definition counter (p : PlacementManager.t) (hwnd : Z) : Z :=
  default 0 (set_pos_calls p !! hwnd).

(** The calls of a log that go to a window, all of them or those issued at
    one call site. *)
Definition calls_to (hwnd : Z) (log : call_log) : call_log :=
  filter (λ e, swp_hwnd e.2 = hwnd) log.

Definition calls_at (site : call_site) (hwnd : Z) (log : call_log) : call_log :=
  filter (λ e, e.1 = site ∧ swp_hwnd e.2 = hwnd) log.

(** What no part of a tick changes: the mode, the tracked names, the
    ceiling, the exclusion sets, and the target size of every tracked
    process. *)
Definition config_preserved (p p' : PlacementManager.t) : Prop :=
  using_grid p' = using_grid p
  ∧ windows_attributes_name p' = windows_attributes_name p
  ∧ set_pos_max_count p' = set_pos_max_count p
  ∧ (∀ n, default ∅ (exclude_window_names p' !! n)
          = default ∅ (exclude_window_names p !! n))
  ∧ (∀ n wa, windows_attributes_dict p !! n = Some wa →
       ∃ wa', windows_attributes_dict p' !! n = Some wa'
              ∧ WindowAttributes.width wa' = WindowAttributes.width wa
              ∧ WindowAttributes.height wa' = WindowAttributes.height wa).

(** Every tracked process has an attributes object. *)
Definition tracked_have_attributes (p : PlacementManager.t) : Prop :=
  ∀ n, n ∈ windows_attributes_name p → is_Some (windows_attributes_dict p !! n).

(** The loop between ticks while the button stays up: no hold is pending,
    the per-tick registrations are cleared, and the configuration is the
    one the loop started with. *)
Definition idle_loop (pm0 : PlacementManager.t) (st : loop_state) : Prop :=
  prev_is_hold st = false
  ∧ MouseTracker.is_holding (mouse_tracker st) = false
  ∧ hwnd_to_name (placement_manager st) = []
  ∧ config_preserved pm0 (placement_manager st).

(** The loop between two ticks, whatever the gestures were: the per-tick
    registrations are cleared and every tracked process has its attributes. *)
Definition loop_wf (st : loop_state) : Prop :=
  hwnd_to_name (placement_manager st) = []
  ∧ tracked_have_attributes (placement_manager st).

(** The scenario of the specification: one tracked process with a target of
    800 x 600 at (100, 100), grid off, and one window of it whose frame
    stays at 780 x 580 at (100, 100).  The button is up. *)
Definition scenario_spec : WindowAttributes.t :=
  WindowAttributes.mk "a.exe" 800 600 100 100 true [] 0 0.

Definition scenario_os : OS :=
  mkOS [42] (λ _, mkWindowInfo true "a" (Some "a.exe"%string))
       (λ _, RECT.mk 100 100 880 680) (λ _, Some (RECT.mk 100 100 900 700))
       (0, 0) 0 false 1000.

Definition scenario_start : loop_state :=
  mkLoop (PlacementManager.init [scenario_spec] false [])
         (MouseTracker.init 0 100) false.

(** *** The grid as a list *)

(** The ids do not decrease, or grow strictly, along the list. *)
Fixpoint ids_sorted (l : list Cell.t) : Prop :=
  match l with
  | [] => True
  | c :: l' => Forall (λ d, Cell.id c ≤ Cell.id d) l' ∧ ids_sorted l'
  end.

Fixpoint ids_increasing (l : list Cell.t) : Prop :=
  match l with
  | [] => True
  | c :: l' => Forall (λ d, Cell.id c < Cell.id d) l' ∧ ids_increasing l'
  end.

(** What a cell holds besides its id, and what locates it. *)
Definition content (c : Cell.t) : Z * Z * Z :=
  (Cell.x c, Cell.y c, Cell.hwnd c).

Definition geometry (c : Cell.t) : Z * Z * Z :=
  (Cell.id c, Cell.x c, Cell.y c).

(** One action of the grid tab, or of the cell window it opens, takes the
    grid [g] to [g']. *)
Inductive grid_edit (g g' : list Cell.t) : Prop :=
| edit_up sel : up_cell sel g = Ok g' → grid_edit g g'
| edit_down sel n : down_cell sel n g = Ok g' → grid_edit g g'
| edit_remove sel : remove_cell sel g = Ok g' → grid_edit g g'
| edit_save idx x y : save_cell g idx x y = Saved g' → grid_edit g g'
| edit_save_failed idx x y :
    save_cell g idx x y = SaveValueError g' → grid_edit g g'.

(** The first value of the mapping [d] is [c]. *)
Definition first_value_is (d : list (string * Cell.t)) (c : Cell.t) : Prop :=
  ∃ k rest, d = (k, c) :: rest.

(** ** The gesture detector *)

Section mouse_tracker.
  Import MouseTracker.







End mouse_tracker.

(** ** Reading and writing cells through references *)

Lemma grid_write_hwnd cell h p :
  grid (write_hwnd cell h p) = alter (Cell.set_hwnd h) cell (grid p).
Proof. done. Qed.

Lemma length_grid_write_hwnd cell h p :
  length (grid (write_hwnd cell h p)) = length (grid p).
Proof. simpl. apply length_alter. Qed.

Lemma length_grid_link_cell hwnd cell p :
  length (grid (link_cell hwnd cell p)) = length (grid p).
Proof. simpl. apply length_alter. Qed.

Lemma hwnd_at_write_hwnd p i j h :
  hwnd_at (write_hwnd i h p) j =
  if decide (i = j ∧ (j < length (grid p))%nat) then h else hwnd_at p j.
Proof.
  unfold hwnd_at. simpl. rewrite list_lookup_alter.
  destruct (decide (i = j)) as [->|Hne].
  - destruct (grid p !! j) as [c|] eqn:E; simpl.
    + rewrite decide_True; [done|]. split; [done|]. by eapply lookup_lt_Some.
    + rewrite decide_False; [done|]. intros [_ Hlt].
      apply lookup_ge_None in E. lia.
  - rewrite decide_False; [done|]. by intros [? _].
Qed.

Lemma x_at_write_hwnd p i j h : x_at (write_hwnd i h p) j = x_at p j.
Proof.
  unfold x_at. simpl. rewrite list_lookup_alter.
  destruct (decide (i = j)) as [->|]; [|done]. by destruct (grid p !! j).
Qed.

Lemma y_at_write_hwnd p i j h : y_at (write_hwnd i h p) j = y_at p j.
Proof.
  unfold y_at. simpl. rewrite list_lookup_alter.
  destruct (decide (i = j)) as [->|]; [|done]. by destruct (grid p !! j).
Qed.

Lemma hwnd_at_link_cell p i j h :
  hwnd_at (link_cell h i p) j =
  if decide (i = j ∧ (j < length (grid p))%nat) then h else hwnd_at p j.
Proof. apply hwnd_at_write_hwnd. Qed.

Lemma x_at_link_cell p i j h : x_at (link_cell h i p) j = x_at p j.
Proof. apply x_at_write_hwnd. Qed.

Lemma y_at_link_cell p i j h : y_at (link_cell h i p) j = y_at p j.
Proof. apply y_at_write_hwnd. Qed.



Lemma hwnd_at_ge p j : (length (grid p) ≤ j)%nat → hwnd_at p j = 0.
Proof. intros H. unfold hwnd_at. by rewrite (lookup_ge_None_2 _ _ H). Qed.


(** ** Cell allocation: [get_cell] *)

Lemma free_cell_Some (p : PlacementManager.t) (cell : nat) :
  free_cell p = Some cell ↔
  ∃ c, grid p !! cell = Some c ∧ (Cell.hwnd c ∉ all_hwnd p)
       ∧ ∀ j c', (j < cell)%nat → grid p !! j = Some c' → Cell.hwnd c' ∈ all_hwnd p.
Proof.
  unfold free_cell. split.
  - destruct (list_find _ _) as [[i c]|] eqn:E; [|done].
    intros [= <-]. apply list_find_Some in E as (Hi & Hc & Hlt).
    exists c. split_and!; [done..|].
    intros j c' Hj Hc'. specialize (Hlt j c' Hc' Hj).
    by destruct (decide (Cell.hwnd c' ∈ all_hwnd p)).
  - intros (c & Hi & Hc & Hlt).
    assert (list_find (λ c, Cell.hwnd c ∉ all_hwnd p) (grid p) = Some (cell, c))
      as ->; [|done].
    apply list_find_Some. split_and!; [done..|].
    intros j c' Hc' Hj Hn. apply Hn. by eapply Hlt.
Qed.

Lemma free_cell_None (p : PlacementManager.t) :
  free_cell p = None ↔ ∀ c, c ∈ grid p → Cell.hwnd c ∈ all_hwnd p.
Proof.
  unfold free_cell. rewrite fmap_None, list_find_None, Forall_forall.
  split; intros H c Hc; specialize (H c Hc).
  - by destruct (decide (Cell.hwnd c ∈ all_hwnd p)).
  - by intros Hn.
Qed.

Lemma free_cell_lt (p : PlacementManager.t) (cell : nat) :
  free_cell p = Some cell → (cell < length (grid p))%nat.
Proof.
  intros (c & Hc & _)%free_cell_Some. by eapply lookup_lt_Some.
Qed.

(** C6.  [get_cell] returns the binding of a bound handle and changes
    nothing.  For an unbound handle it returns a cell exactly when that cell
    is the first one, in declared order, whose owner is not in the live set,
    and then the handle is bound to it (in both directions); it returns
    [None] exactly when every cell's owner is in the live set. *)
Theorem get_cell_binding_or_first_vacated (hwnd : Z) (p : PlacementManager.t) :
  (∀ cell, hwnd_to_cels p !! hwnd = Some cell → get_cell hwnd p = (Some cell, p))
  ∧ (hwnd_to_cels p !! hwnd = None →
     (∀ cell, (get_cell hwnd p).1 = Some cell ↔
        ∃ c, grid p !! cell = Some c ∧ (Cell.hwnd c ∉ all_hwnd p)
             ∧ ∀ j c', (j < cell)%nat → grid p !! j = Some c' →
                       Cell.hwnd c' ∈ all_hwnd p)
     ∧ (∀ cell, (get_cell hwnd p).1 = Some cell →
          (get_cell hwnd p).2 = link_cell hwnd cell p
          ∧ hwnd_to_cels (get_cell hwnd p).2 !! hwnd = Some cell
          ∧ hwnd_at (get_cell hwnd p).2 cell = hwnd)
     ∧ ((get_cell hwnd p).1 = None ↔
          ∀ c, c ∈ grid p → Cell.hwnd c ∈ all_hwnd p)
     ∧ ((get_cell hwnd p).1 = None → (get_cell hwnd p).2 = p)).
Proof.
  split.
  - intros cell Hb. unfold get_cell. by rewrite Hb.
  - intros Hnone. unfold get_cell. rewrite Hnone.
    destruct (free_cell p) as [i|] eqn:E; simpl.
    + split_and!.
      * intros cell. rewrite <- free_cell_Some. split; congruence.
      * intros cell [= <-]. split_and!; [done|by rewrite lookup_insert_eq|].
        rewrite hwnd_at_link_cell, decide_True; [done|].
        split; [done|]. by apply free_cell_lt.
      * split; [done|]. intros H%free_cell_None. congruence.
      * done.
    + split_and!.
      * intros cell. rewrite <- free_cell_Some. split; congruence.
      * done.
      * split; [|done]. intros _. by apply free_cell_None.
      * done.
Qed.

Lemma get_cell_binding_or_first_vacated_witness :
  let p := with_all_hwnd {[7; 9]}
             (PlacementManager.init [] true
                [Cell.mk 1 0 0 7; Cell.mk 2 500 0 3; Cell.mk 3 900 0 0]) in
  (get_cell 9 p).1 = Some 1%nat
  ∧ hwnd_at (get_cell 9 p).2 1 = 9.
Proof.
  intros p.
  destruct (get_cell_binding_or_first_vacated 9 p) as [_ H].
  destruct (H eq_refl) as (Hiff & Hbind & _).
  assert ((get_cell 9 p).1 = Some 1%nat) as Hr by (by vm_compute).
  split; [exact Hr|]. exact (proj2 (proj2 (Hbind 1%nat Hr))).
Defined.

(** ** Nearest cell: [search_nearest_cell] *)







(** ** Exchange of cells: [move_to_cell] *)

(** A handle is settled on [dest] when the destination already belongs to
    it, or when it is bound to a cell with the destination's coordinates. *)
Lemma move_to_cell_settled hwnd dest p :
  hwnd_at p dest = hwnd
  ∨ (∃ c, hwnd_to_cels p !! hwnd = Some c
          ∧ x_at p c = x_at p dest ∧ y_at p c = y_at p dest) →
  move_to_cell hwnd dest p = p.
Proof.
  intros H. unfold move_to_cell.
  destruct (decide (hwnd_at p dest = hwnd)) as [|Hne]; [done|].
  destruct H as [?|(c & Hc & Hx & Hy)]; [done|].
  unfold get_cell. rewrite Hc. by rewrite decide_True.
Qed.

Lemma move_to_cell_outcome hwnd dest p :
  move_to_cell hwnd dest p = p
  ∨ ∃ c, hwnd_to_cels (move_to_cell hwnd dest p) !! hwnd = Some c
         ∧ x_at (move_to_cell hwnd dest p) c = x_at (move_to_cell hwnd dest p) dest
         ∧ y_at (move_to_cell hwnd dest p) c = y_at (move_to_cell hwnd dest p) dest.
Proof.
  unfold move_to_cell.
  destruct (decide (hwnd_at p dest = hwnd)) as [|Hne]; [by left|].
  unfold get_cell.
  destruct (hwnd_to_cels p !! hwnd) as [c|] eqn:Hb.
  - destruct (decide (_ ∧ _)) as [|Hxy]; [by left|]. right. exists dest.
    destruct (decide (hwnd_at (write_hwnd c 0 p) dest = 0));
      simpl; by rewrite lookup_insert_eq.
  - destruct (free_cell p) as [i|] eqn:Hf.
    + right. destruct (decide (_ ∧ _)) as [[Hx Hy]|Hxy].
      * exists i. simpl. by rewrite lookup_insert_eq.
      * exists dest.
        destruct (decide (hwnd_at (write_hwnd i 0 (link_cell hwnd i p)) dest = 0));
          simpl; by rewrite lookup_insert_eq.
    + destruct (decide (hwnd_at p dest = 0)); [|by left].
      right. exists dest. simpl. by rewrite lookup_insert_eq.
Qed.

(** C8.  Calling [move_to_cell] a second time with the same handle and
    destination leaves the whole state, and so the bindings, as the first
    call left it. *)
Theorem move_to_cell_idempotent (hwnd : Z) (dest_cell : nat) (p : PlacementManager.t) :
  move_to_cell hwnd dest_cell (move_to_cell hwnd dest_cell p)
  = move_to_cell hwnd dest_cell p.
Proof.
  destruct (move_to_cell_outcome hwnd dest_cell p) as [Heq|H].
  - by rewrite !Heq.
  - apply move_to_cell_settled. by right.
Qed.

Lemma move_to_cell_bound hwnd dest curr p :
  (dest < length (grid p))%nat →
  (curr < length (grid p))%nat →
  hwnd_at p dest ≠ hwnd →
  hwnd_to_cels p !! hwnd = Some curr →
  ¬ (x_at p curr = x_at p dest ∧ y_at p curr = y_at p dest) →
  hwnd_to_cels (move_to_cell hwnd dest p) !! hwnd = Some dest
  ∧ hwnd_at (move_to_cell hwnd dest p) dest = hwnd
  ∧ (hwnd_at p dest = 0 →
     hwnd_at (move_to_cell hwnd dest p) curr = 0
     ∧ ∀ g, g ≠ hwnd →
         hwnd_to_cels (move_to_cell hwnd dest p) !! g = hwnd_to_cels p !! g)
  ∧ (hwnd_at p dest ≠ 0 →
     hwnd_to_cels (move_to_cell hwnd dest p) !! hwnd_at p dest = Some curr
     ∧ hwnd_at (move_to_cell hwnd dest p) curr = hwnd_at p dest)
  ∧ (∀ j, j ≠ dest → j ≠ curr →
       hwnd_at (move_to_cell hwnd dest p) j = hwnd_at p j).
Proof.
  intros Hd Hc Hne Hb Hxy.
  assert (curr ≠ dest) as Hcd by (intros ->; by apply Hxy).
  unfold move_to_cell. rewrite decide_False by done.
  unfold get_cell. rewrite Hb. rewrite decide_False by done.
  rewrite hwnd_at_write_hwnd, (decide_False (P := curr = dest ∧ _)) by (by intros [? _]).
  destruct (decide (hwnd_at p dest = 0)) as [Hz|Hnz].
  - split_and!.
    + simpl. by rewrite lookup_insert_eq.
    + rewrite hwnd_at_link_cell, decide_True; [done|].
      by rewrite length_grid_write_hwnd.
    + intros _. split.
      * rewrite hwnd_at_link_cell, decide_False by (by intros [? _]).
        by rewrite hwnd_at_write_hwnd, decide_True.
      * intros g Hg. simpl. by rewrite lookup_insert_ne.
    + done.
    + intros j Hjd Hjc.
      rewrite hwnd_at_link_cell, decide_False by (by intros [? _]).
      by rewrite hwnd_at_write_hwnd, decide_False by (by intros [? _]).
  - split_and!.
    + simpl. by rewrite lookup_insert_eq.
    + rewrite hwnd_at_link_cell, decide_True; [done|].
      by rewrite length_grid_link_cell, length_grid_write_hwnd.
    + done.
    + intros _. split.
      * simpl. rewrite lookup_insert_ne by done. by rewrite lookup_insert_eq.
      * rewrite hwnd_at_link_cell, decide_False by (by intros [? _]).
        rewrite hwnd_at_link_cell, decide_True; [done|].
        by rewrite length_grid_write_hwnd.
    + intros j Hjd Hjc.
      rewrite hwnd_at_link_cell, decide_False by (by intros [? _]).
      rewrite hwnd_at_link_cell, decide_False by (by intros [? _]).
      by rewrite hwnd_at_write_hwnd, decide_False by (by intros [? _]).
Qed.

Lemma move_to_cell_unbound_no_vacancy hwnd dest p :
  hwnd_at p dest ≠ hwnd →
  hwnd_to_cels p !! hwnd = None →
  free_cell p = None →
  (hwnd_at p dest ≠ 0 → move_to_cell hwnd dest p = p)
  ∧ (hwnd_at p dest = 0 → move_to_cell hwnd dest p = link_cell hwnd dest p).
Proof.
  intros Hne Hb Hf. unfold move_to_cell. rewrite decide_False by done.
  unfold get_cell. rewrite Hb, Hf.
  split; intros H; [by rewrite decide_False|by rewrite decide_True].
Qed.

Lemma move_to_cell_unbound_vacancy hwnd dest i p :
  hwnd_at p dest ≠ hwnd →
  hwnd_to_cels p !! hwnd = None →
  free_cell p = Some i →
  move_to_cell hwnd dest p = move_to_cell hwnd dest (link_cell hwnd i p).
Proof.
  intros Hne Hb Hf.
  assert (get_cell hwnd p = (Some i, link_cell hwnd i p)) as Hg1.
  { unfold get_cell. by rewrite Hb, Hf. }
  destruct (decide (i = dest)) as [->|Hid].
  - rewrite (move_to_cell_settled hwnd dest (link_cell hwnd dest p)).
    + unfold move_to_cell. rewrite decide_False by done.
      rewrite Hg1. by rewrite decide_True.
    + left. rewrite hwnd_at_link_cell, decide_True; [done|].
      split; [done|]. by eapply free_cell_lt.
  - assert (get_cell hwnd (link_cell hwnd i p) = (Some i, link_cell hwnd i p)) as Hg2.
    { unfold get_cell. simpl hwnd_to_cels. by rewrite lookup_insert_eq. }
    assert (hwnd_at (link_cell hwnd i p) dest ≠ hwnd) as Hne2.
    { by rewrite hwnd_at_link_cell, decide_False by (by intros [? _]). }
    unfold move_to_cell. rewrite Hg1, Hg2.
    destruct (decide (hwnd_at p dest = hwnd)); [done|].
    by destruct (decide (hwnd_at (link_cell hwnd i p) dest = hwnd)).
Qed.

(** C1 (as amended).  [move_to_cell] changes nothing when the destination
    is already owned by the handle, or when the handle is bound to a cell
    with the destination's coordinates.  Otherwise, for a handle bound to a
    cell [curr]: the handle takes the destination; if the destination was
    unowned, [curr] is released and no other binding changes; if it was
    owned by another handle, that handle takes over [curr].  For an unbound
    handle: if no cell is vacated and the destination is owned by another
    handle, nothing changes (the owner keeps the destination and the handle
    stays unbound); if no cell is vacated and the destination is unowned,
    the handle takes it; if [get_cell] finds a vacated cell, the handle is
    first bound to it and the call goes on as for a handle bound to that
    cell. *)
Theorem move_to_cell_cases (hwnd : Z) (dest : nat) (p : PlacementManager.t) :
  (dest < length (grid p))%nat →
  (hwnd_at p dest = hwnd → move_to_cell hwnd dest p = p)
  ∧ (∀ curr, hwnd_to_cels p !! hwnd = Some curr →
       x_at p curr = x_at p dest → y_at p curr = y_at p dest →
       move_to_cell hwnd dest p = p)
  ∧ (∀ curr, (curr < length (grid p))%nat →
       hwnd_at p dest ≠ hwnd →
       hwnd_to_cels p !! hwnd = Some curr →
       ¬ (x_at p curr = x_at p dest ∧ y_at p curr = y_at p dest) →
       hwnd_to_cels (move_to_cell hwnd dest p) !! hwnd = Some dest
       ∧ hwnd_at (move_to_cell hwnd dest p) dest = hwnd
       ∧ (hwnd_at p dest = 0 →
          hwnd_at (move_to_cell hwnd dest p) curr = 0
          ∧ ∀ g, g ≠ hwnd →
              hwnd_to_cels (move_to_cell hwnd dest p) !! g = hwnd_to_cels p !! g)
       ∧ (hwnd_at p dest ≠ 0 →
          hwnd_to_cels (move_to_cell hwnd dest p) !! hwnd_at p dest = Some curr
          ∧ hwnd_at (move_to_cell hwnd dest p) curr = hwnd_at p dest)
       ∧ (∀ j, j ≠ dest → j ≠ curr →
            hwnd_at (move_to_cell hwnd dest p) j = hwnd_at p j))
  ∧ (hwnd_at p dest ≠ hwnd →
     hwnd_to_cels p !! hwnd = None →
     (free_cell p = None → hwnd_at p dest ≠ 0 → move_to_cell hwnd dest p = p)
     ∧ (free_cell p = None → hwnd_at p dest = 0 →
        hwnd_to_cels (move_to_cell hwnd dest p) !! hwnd = Some dest
        ∧ hwnd_at (move_to_cell hwnd dest p) dest = hwnd)
     ∧ (∀ i, free_cell p = Some i →
          (get_cell hwnd p).2 = link_cell hwnd i p
          ∧ hwnd_to_cels (link_cell hwnd i p) !! hwnd = Some i
          ∧ move_to_cell hwnd dest p
            = move_to_cell hwnd dest (link_cell hwnd i p))).
Proof.
  intros Hd. split_and!.
  - intros H. apply move_to_cell_settled. by left.
  - intros curr Hb Hx Hy. apply move_to_cell_settled. right. by exists curr.
  - intros curr Hc Hne Hb Hxy. by apply move_to_cell_bound.
  - intros Hne Hb. split_and!.
    + intros Hf Hnz.
      by apply (proj1 (move_to_cell_unbound_no_vacancy hwnd dest p Hne Hb Hf)).
    + intros Hf Hz.
      rewrite (proj2 (move_to_cell_unbound_no_vacancy hwnd dest p Hne Hb Hf) Hz).
      split; [simpl; by rewrite lookup_insert_eq|].
      by rewrite hwnd_at_link_cell, decide_True.
    + intros i Hf. split_and!.
      * unfold get_cell. by rewrite Hb, Hf.
      * simpl. by rewrite lookup_insert_eq.
      * by apply move_to_cell_unbound_vacancy.
Qed.

(** The drag of the specification's scenario: a handle bound to the first of
    two cells is moved to the second one, which is unowned. *)
Lemma move_to_cell_cases_witness :
  let p := (get_cell 7 (with_all_hwnd {[7]}
              (PlacementManager.init [] true
                 [Cell.mk 1 0 0 0; Cell.mk 2 500 0 0]))).2 in
  hwnd_to_cels (move_to_cell 7 1 p) !! 7 = Some 1%nat
  ∧ hwnd_at (move_to_cell 7 1 p) 1 = 7
  ∧ hwnd_at (move_to_cell 7 1 p) 0 = 0.
Proof.
  intros p.
  assert ((1 < length (grid p))%nat) as Hd by (vm_compute; lia).
  destruct (move_to_cell_cases 7 1 p Hd) as (_ & _ & Hbound & _).
  destruct (Hbound 0%nat) as (Hm & Hh & Hz & _).
  - vm_compute; lia.
  - by vm_compute.
  - by vm_compute.
  - vm_compute. by intros [? _].
  - split_and!; [exact Hm|exact Hh|]. apply Hz. by vm_compute.
Defined.

(** C1 (as stated) fails where the handle has no previous cell: both cells
    are owned by live windows, handle 9 is unbound and is moved to the cell
    of handle 8.  Nothing changes: 9 does not take the cell, and 8 is not
    left unbound. *)
Lemma move_to_cell_unbound_handle_does_not_take_owned_cell :
  let p0 := with_all_hwnd {[7; 8; 9]}
              (PlacementManager.init [] true
                 [Cell.mk 1 0 0 0; Cell.mk 2 500 0 0]) in
  let p := (get_cell 8 (get_cell 7 p0).2).2 in
  hwnd_at p 1 = 8 ∧ 8 ∈ all_hwnd p
  ∧ hwnd_to_cels p !! 9 = None
  ∧ hwnd_to_cels (move_to_cell 9 1 p) !! 9 = None
  ∧ hwnd_at (move_to_cell 9 1 p) 1 = 8
  ∧ hwnd_to_cels (move_to_cell 9 1 p) !! 8 = Some 1%nat.
Proof.
  split_and!; by vm_compute.
Qed.

(** ** The binding invariant *)















(** ** Discovery: [winEnumHandler] *)

Lemma dict_set_keys k v l k' :
  k' ∈ (dict_set k v l).*1 ↔ k' = k ∨ k' ∈ l.*1.
Proof.
  induction l as [|[k0 v0] l IH]; simpl.
  - rewrite list_elem_of_singleton. split; [by left|]. intros [?|H]; [done|].
    by apply not_elem_of_nil in H.
  - destruct (decide (k0 = k)) as [->|Hne]; simpl.
    + rewrite !elem_of_cons. naive_solver.
    + rewrite !elem_of_cons, IH. naive_solver.
Qed.

Lemma is_exclude_window_spec proc_name window_name p :
  (is_exclude_window proc_name window_name p).1
  = bool_decide (window_name ∈ default ∅ (exclude_window_names p !! proc_name))
  ∧ (∀ n, default ∅ (exclude_window_names
                       (is_exclude_window proc_name window_name p).2 !! n)
          = default ∅ (exclude_window_names p !! n))
  ∧ grid (is_exclude_window proc_name window_name p).2 = grid p
  ∧ hwnd_to_cels (is_exclude_window proc_name window_name p).2 = hwnd_to_cels p
  ∧ windows_attributes_name (is_exclude_window proc_name window_name p).2
    = windows_attributes_name p
  ∧ all_hwnd (is_exclude_window proc_name window_name p).2 = all_hwnd p
  ∧ hwnd_to_name (is_exclude_window proc_name window_name p).2 = hwnd_to_name p.
Proof.
  unfold is_exclude_window.
  destruct (exclude_window_names p !! proc_name) as [s|] eqn:E; simpl.
  - done.
  - split_and!; try done.
    intros n. rewrite lookup_insert. case_decide as Hn; [|done].
    subst n. by rewrite E.
Qed.

Lemma winEnumHandler_frame os hwnd pm :
  grid (winEnumHandler os hwnd pm) = grid pm
  ∧ hwnd_to_cels (winEnumHandler os hwnd pm) = hwnd_to_cels pm
  ∧ windows_attributes_name (winEnumHandler os hwnd pm) = windows_attributes_name pm
  ∧ (∀ n, default ∅ (exclude_window_names (winEnumHandler os hwnd pm) !! n)
          = default ∅ (exclude_window_names pm !! n))
  ∧ all_hwnd (winEnumHandler os hwnd pm)
    = (if IsWindowVisible (window os hwnd) then {[hwnd]} ∪ all_hwnd pm
       else all_hwnd pm)
  ∧ (∀ h, h ∈ (hwnd_to_name (winEnumHandler os hwnd pm)).*1
          ↔ h ∈ (hwnd_to_name pm).*1 ∨ (h = hwnd ∧ eligible os pm hwnd)).
Proof.
  unfold winEnumHandler, eligible.
  destruct (IsWindowVisible (window os hwnd)); [|naive_solver].
  destruct (process_image (window os hwnd)) as [name|]; [|naive_solver].
  simpl windows_attributes_name.
  destruct (bool_decide_reflect (name ∈ windows_attributes_name pm)) as [Hin|Hnin];
    [|naive_solver].
  match goal with |- context [is_exclude_window ?a ?b ?q] =>
    destruct (is_exclude_window_spec a b q) as (Hr & Hex & Hg & Hc & Hn & Hl & Hreg);
    destruct (is_exclude_window a b q) as [excluded q'] end.
  simpl in *. subst excluded.
  destruct (bool_decide_reflect
              (GetWindowText (window os hwnd)
                 ∈ default ∅ (exclude_window_names pm !! name))) as [He|Hne]; simpl.
  - split_and!; try done. rewrite Hreg. naive_solver.
  - split_and!; try done. intros h. rewrite dict_set_keys, Hreg. naive_solver.
Qed.

Lemma eligible_winEnumHandler os hwnd pm h :
  eligible os (winEnumHandler os hwnd pm) h ↔ eligible os pm h.
Proof.
  destruct (winEnumHandler_frame os hwnd pm) as (_ & _ & Hn & Hex & _).
  unfold eligible. rewrite Hn. by setoid_rewrite Hex.
Qed.

Lemma enum_windows_frame os : ∀ l pm,
  let pm' := foldl (λ pm hwnd, winEnumHandler os hwnd pm) pm l in
  grid pm' = grid pm
  ∧ hwnd_to_cels pm' = hwnd_to_cels pm
  ∧ (∀ h, h ∈ all_hwnd pm' ↔
          h ∈ all_hwnd pm ∨ (h ∈ l ∧ IsWindowVisible (window os h) = true))
  ∧ (∀ h, h ∈ (hwnd_to_name pm').*1 ↔
          h ∈ (hwnd_to_name pm).*1 ∨ (h ∈ l ∧ eligible os pm h)).
Proof.
  induction l as [|hwnd l IH]; intros pm; simpl.
  - split_and!; try done; intros h; rewrite elem_of_nil; naive_solver.
  - destruct (IH (winEnumHandler os hwnd pm)) as (Hg & Hc & Hl & Hr).
    destruct (winEnumHandler_frame os hwnd pm) as (Hg1 & Hc1 & _ & _ & Hl1 & Hr1).
    split_and!.
    + congruence.
    + congruence.
    + intros h. rewrite Hl, Hl1, elem_of_cons.
      destruct (IsWindowVisible (window os hwnd)) eqn:Hv.
      * rewrite elem_of_union, elem_of_singleton. split.
        -- intros [[->|?]|[? ?]];
             [right; split; [by left|done]|by left|right; split; [by right|done]].
        -- intros [?|[[->|?] ?]]; [left; by right|left; by left|by right].
      * split.
        -- intros [?|[? ?]]; [by left|right; split; [by right|done]].
        -- intros [?|[[->|?] ?]]; [by left|congruence|by right].
    + intros h. rewrite Hr, Hr1, elem_of_cons, eligible_winEnumHandler. split.
      * intros [[?|[-> ?]]|[? ?]];
          [by left|right; split; [by left|done]|right; split; [by right|done]].
      * intros [?|[[->|?] ?]]; [left; by left|left; by right|by right].
Qed.

(** C10.  After the enumeration of a tick, every visible top-level window
    is in the live set, whatever its process and title.  A cell owned by
    such a window is never the cell that the scan of [get_cell] picks, so
    it is never handed to a handle that has no binding.  The window is
    registered by the enumeration only if it is eligible: when its process
    cannot be queried, is not tracked, or its title is excluded, it stays
    unregistered. *)
Theorem visible_window_is_live_even_if_unregistered
    (os : OS) (pm : PlacementManager.t) (hwnd : Z) :
  hwnd ∈ EnumWindows os →
  IsWindowVisible (window os hwnd) = true →
  hwnd ∈ all_hwnd (enum_windows os pm)
  ∧ (∀ cell c, grid (enum_windows os pm) !! cell = Some c → Cell.hwnd c = hwnd →
       free_cell (enum_windows os pm) ≠ Some cell
       ∧ ∀ h, hwnd_to_cels (enum_windows os pm) !! h = None →
              (get_cell h (enum_windows os pm)).1 ≠ Some cell)
  ∧ (is_registered_hwnd hwnd pm = false →
     (process_image (window os hwnd) = None
      ∨ ∃ name, process_image (window os hwnd) = Some name
                ∧ (name ∉ windows_attributes_name pm
                   ∨ GetWindowText (window os hwnd)
                       ∈ default ∅ (exclude_window_names pm !! name))) →
     is_registered_hwnd hwnd (enum_windows os pm) = false).
Proof.
  intros Hin Hvis. unfold enum_windows.
  destruct (enum_windows_frame os (EnumWindows os) pm) as (Hg & Hc & Hl & Hr).
  assert (hwnd ∈ all_hwnd (foldl (λ pm hwnd, winEnumHandler os hwnd pm) pm
                             (EnumWindows os))) as Hlive.
  { apply Hl. by right. }
  split_and!.
  - done.
  - intros cell c Hcell Hown.
    assert (free_cell (foldl (λ pm hwnd, winEnumHandler os hwnd pm) pm
                         (EnumWindows os)) ≠ Some cell) as Hfree.
    { intros (c' & Hc' & Hnl & _)%free_cell_Some.
      rewrite Hcell in Hc'. injection Hc' as <-. by rewrite Hown in Hnl. }
    split; [done|]. intros h Hb. unfold get_cell. rewrite Hb.
    destruct (free_cell _) as [i|] eqn:Hf; simpl; congruence.
  - unfold is_registered_hwnd. rewrite !bool_decide_eq_false.
    intros Hnr Hwhy. rewrite Hr. intros [?|[_ (_ & name & Hp & Hn & Ht)]]; [done|].
    destruct Hwhy as [Hnone|(name' & Hp' & Hwhy)]; [congruence|].
    assert (name' = name) as -> by congruence.
    by destruct Hwhy.
Qed.

Lemma visible_window_is_live_even_if_unregistered_witness :
  let os := mkOS [11; 12]
              (λ h, if h =? 11
                    then mkWindowInfo true "Settings" (Some "a.exe"%string)
                    else mkWindowInfo true "main" None)
              (λ _, RECT.mk 0 0 0 0) (λ _, None) (0, 0) 0 false 0 in
  let pm := PlacementManager.init
              [WindowAttributes.mk "a.exe" 800 600 0 0 false ["Settings"%string] 0 0]
              true [Cell.mk 1 0 0 11] in
  11 ∈ all_hwnd (enum_windows os pm)
  ∧ free_cell (enum_windows os pm) ≠ Some 0%nat
  ∧ is_registered_hwnd 11 (enum_windows os pm) = false.
Proof.
  intros os pm.
  destruct (visible_window_is_live_even_if_unregistered os pm 11)
    as (Hlive & Hcell & Hreg).
  - apply elem_of_cons. by left.
  - reflexivity.
  - split_and!.
    + exact Hlive.
    + apply (Hcell 0%nat (Cell.mk 1 0 0 11)); reflexivity.
    + apply Hreg; [reflexivity|].
      right. exists "a.exe"%string. split; [reflexivity|].
      right. by vm_compute.
Defined.

(** ** Size enforcement: one pass over a window *)

#[local] Arguments measure : simpl never.
#[local] Arguments grid_target : simpl never.
#[local] Arguments guarded_call : simpl never.

Lemma guarded_call_spec hwnd wa pm :
  ∃ calls log,
    guarded_call hwnd wa pm = Ok (with_set_pos_calls calls pm, log)
    ∧ default 0 (calls !! hwnd)
      = (if bool_decide (counter pm hwnd < set_pos_max_count pm)
         then counter pm hwnd + 1 else counter pm hwnd)
    ∧ (∀ h', h' ≠ hwnd → calls !! h' = set_pos_calls pm !! h')
    ∧ (if bool_decide (counter pm hwnd < set_pos_max_count pm)
       then ∃ c, log = [(GuardedCall, c)] ∧ swp_hwnd c = hwnd
                 ∧ swp_cx c = WindowAttributes.width wa
                 ∧ swp_cy c = WindowAttributes.height wa
       else log = []).
Proof.
  unfold guarded_call, need_set_pos_call, increase_set_pos_call_count, counter.
  destruct (set_pos_calls pm !! hwnd) as [n|] eqn:E; simpl.
  - destruct (bool_decide (n < set_pos_max_count pm)); simpl.
    + rewrite E. simpl. eexists _, _. split; [reflexivity|].
      rewrite lookup_insert_eq. split_and!; [done| |by eexists].
      intros h' Hne. by rewrite lookup_insert_ne.
    + exists (set_pos_calls pm), []. split_and!; [by destruct pm|by rewrite E|done..].
  - destruct (bool_decide (0 < set_pos_max_count pm)); simpl.
    + rewrite lookup_insert_eq. simpl. eexists _, _. split; [reflexivity|].
      rewrite lookup_insert_eq. split_and!; [done| |by eexists].
      intros h' Hne. by rewrite !lookup_insert_ne.
    + eexists _, _. split; [reflexivity|].
      rewrite lookup_insert_eq. split_and!; [done| |done].
      intros h' Hne. by rewrite lookup_insert_ne.
Qed.

Lemma measure_spec rect wa :
  ∃ wa',
    measure rect wa
    = (bool_decide (RECT.right rect - RECT.left rect = WindowAttributes.width wa),
       bool_decide (RECT.bottom rect - RECT.top rect = WindowAttributes.height wa), wa')
    ∧ WindowAttributes.width wa' = WindowAttributes.width wa
    ∧ WindowAttributes.height wa' = WindowAttributes.height wa
    ∧ WindowAttributes.additional_width wa'
      = (if bool_decide (RECT.right rect - RECT.left rect = WindowAttributes.width wa)
         then WindowAttributes.additional_width wa
         else Z.max 0 (WindowAttributes.width wa - (RECT.right rect - RECT.left rect)))
    ∧ WindowAttributes.additional_height wa'
      = (if bool_decide (RECT.bottom rect - RECT.top rect = WindowAttributes.height wa)
         then WindowAttributes.additional_height wa
         else Z.max 0 (WindowAttributes.height wa - (RECT.bottom rect - RECT.top rect))).
Proof.
  unfold measure. eexists. split; [reflexivity|].
  destruct (bool_decide (RECT.right rect - RECT.left rect = _));
    destruct (bool_decide (RECT.bottom rect - RECT.top rect = _)); simpl;
    split_and!; try done;
    match goal with |- context [0 <? ?a] => destruct (Z.ltb_spec 0 a); lia end.
Qed.

Lemma grid_target_frame current_left current_top wa hwnd pm :
  ∃ g m,
    (grid_target current_left current_top wa hwnd pm).2
    = with_hwnd_to_cels m (with_grid g pm).
Proof.
  unfold grid_target. destruct (using_grid pm).
  - unfold get_cell.
    destruct (hwnd_to_cels pm !! hwnd) as [c|]; simpl.
    + exists (grid pm), (hwnd_to_cels pm). by destruct pm.
    + destruct (free_cell pm) as [i|]; simpl.
      * by eexists _, _.
      * exists (grid pm), (hwnd_to_cels pm). by destruct pm.
  - exists (grid pm), (hwnd_to_cels pm). by destruct pm.
Qed.

(** What one pass over a window does to the counters, the attributes and
    the log. *)
Lemma process_window_spec os hwnd proc_name pm wa :
  windows_attributes_dict pm !! proc_name = Some wa →
  ∃ pm' log1 log2 wa',
    process_window os hwnd proc_name pm = Ok (pm', log1 ++ log2)
    ∧ (measure (DwmGetWindowAttribute os hwnd) wa).2 = wa'
    ∧ windows_attributes_dict pm'
      = <[proc_name := wa']> (windows_attributes_dict pm)
    ∧ using_grid pm' = using_grid pm
    ∧ windows_attributes_name pm' = windows_attributes_name pm
    ∧ set_pos_max_count pm' = set_pos_max_count pm
    ∧ exclude_window_names pm' = exclude_window_names pm
    ∧ hwnd_to_name pm' = hwnd_to_name pm
    ∧ all_hwnd pm' = all_hwnd pm
    ∧ counter pm' hwnd
      = (if bool_decide (counter pm hwnd < set_pos_max_count pm)
         then counter pm hwnd + 1 else counter pm hwnd)
    ∧ (∀ h', h' ≠ hwnd → counter pm' h' = counter pm h')
    ∧ (if bool_decide (counter pm hwnd < set_pos_max_count pm)
       then ∃ c, log1 = [(GuardedCall, c)] ∧ swp_hwnd c = hwnd
                 ∧ swp_cx c = WindowAttributes.width wa
                 ∧ swp_cy c = WindowAttributes.height wa
       else log1 = [])
    ∧ (log2 = []
       ∨ ∃ c, log2 = [(CorrectiveCall, c)] ∧ swp_hwnd c = hwnd
              ∧ swp_cx c = WindowAttributes.width wa
                           + WindowAttributes.additional_width wa'
              ∧ swp_cy c = WindowAttributes.height wa
                           + WindowAttributes.additional_height wa')
    ∧ (is_Some (GetWindowRect os hwnd) →
       RECT.right (DwmGetWindowAttribute os hwnd)
         - RECT.left (DwmGetWindowAttribute os hwnd)
         ≠ WindowAttributes.width wa
       ∨ RECT.bottom (DwmGetWindowAttribute os hwnd)
           - RECT.top (DwmGetWindowAttribute os hwnd)
         ≠ WindowAttributes.height wa →
       log2 ≠ []).
Proof.
  intros Hwa. unfold process_window. rewrite Hwa.
  destruct (guarded_call_spec hwnd wa pm) as (calls & log1 & -> & Hcnt & Hoth & Hlog1).
  cbn [mbind result_bind].
  destruct (measure_spec (DwmGetWindowAttribute os hwnd) wa)
    as (wa' & -> & Hw & Hh & Haw & Hah).
  destruct (GetWindowRect os hwnd) as [r|] eqn:Hr.
  - match goal with |- context [grid_target ?a ?b ?c ?d ?q] =>
      destruct (grid_target_frame a b c d q) as (g & m & Hgt);
      destruct (grid_target a b c d q) as [[[[[l t] cl] ct] mv] q'] end.
    simpl in Hgt. subst q'.
    destruct (negb _ || negb _ || negb cl || negb ct) eqn:Hcond.
    + eexists _, log1, _, wa'. split; [reflexivity|].
      split_and!; try done.
      all: try (intros h' Hne; unfold counter; simpl; by rewrite Hoth).
      right. eexists. split; [reflexivity|]. simpl. by rewrite Hw, Hh.
    + exists (with_hwnd_to_cels m (with_grid g
                (with_windows_attributes_dict
                   (<[proc_name := wa']> (windows_attributes_dict pm))
                   (with_set_pos_calls calls pm)))), log1, [], wa'.
      rewrite app_nil_r. split; [reflexivity|].
      split_and!; try done.
      all: try (intros h' Hne; unfold counter; simpl; by rewrite Hoth).
      all: try (by left).
      intros _ Hsize. exfalso.
      apply orb_false_elim in Hcond as [Hcond _].
      apply orb_false_elim in Hcond as [Hcond _].
      apply orb_false_elim in Hcond as [Hc1 Hc2].
      apply negb_false_iff, bool_decide_eq_true in Hc1, Hc2.
      by destruct Hsize.
  - exists (with_windows_attributes_dict
              (<[proc_name := wa']> (windows_attributes_dict pm))
              (with_set_pos_calls calls pm)), log1, [], wa'.
    rewrite app_nil_r. split; [reflexivity|].
    split_and!; try done.
    all: try (intros h' Hne; unfold counter; simpl; by rewrite Hoth).
    all: try (by left).
    all: try (by intros [? ?]).
Qed.

(** C5.  In one pass over a window, a measured width that differs from the
    target sets [additional_width] to [max 0 (target - actual)], and
    likewise for the height; the two corrections are never negative; the
    corrective call, which is issued whenever a dimension differs and the
    window still exists, asks for the target plus the corrections.  In the
    scenario of the specification (800 x 600 wanted, 780 x 580 measured,
    grid off, coordinates used) one tick records 20 and 20 and the
    corrective call asks for 820 x 620. *)
Theorem size_correction_clamped_and_used :
  (∀ (os : OS) (hwnd : Z) (proc_name : string) (pm : PlacementManager.t)
     (wa : WindowAttributes.t),
     windows_attributes_dict pm !! proc_name = Some wa →
     0 ≤ WindowAttributes.additional_width wa →
     0 ≤ WindowAttributes.additional_height wa →
     let rect := DwmGetWindowAttribute os hwnd in
     ∃ pm' log wa',
       process_window os hwnd proc_name pm = Ok (pm', log)
       ∧ windows_attributes_dict pm' !! proc_name = Some wa'
       ∧ (RECT.right rect - RECT.left rect ≠ WindowAttributes.width wa →
          WindowAttributes.additional_width wa'
          = Z.max 0 (WindowAttributes.width wa - (RECT.right rect - RECT.left rect)))
       ∧ (RECT.bottom rect - RECT.top rect ≠ WindowAttributes.height wa →
          WindowAttributes.additional_height wa'
          = Z.max 0 (WindowAttributes.height wa - (RECT.bottom rect - RECT.top rect)))
       ∧ 0 ≤ WindowAttributes.additional_width wa'
       ∧ 0 ≤ WindowAttributes.additional_height wa'
       ∧ (∀ c, (CorrectiveCall, c) ∈ log →
            swp_cx c = WindowAttributes.width wa
                       + WindowAttributes.additional_width wa'
            ∧ swp_cy c = WindowAttributes.height wa
                         + WindowAttributes.additional_height wa')
       ∧ (is_Some (GetWindowRect os hwnd) →
          RECT.right rect - RECT.left rect ≠ WindowAttributes.width wa
          ∨ RECT.bottom rect - RECT.top rect ≠ WindowAttributes.height wa →
          ∃ c, (CorrectiveCall, c) ∈ log))
  ∧ (∃ st' wa',
       resize_window_tick scenario_os scenario_start
       = Ok (st',
             [(GuardedCall,
               mkSetWindowPos 42 HWND_NOTOPMOST 100 100 800 600 SWP_SHOWWINDOW);
              (CorrectiveCall,
               mkSetWindowPos 42 HWND_NOTOPMOST 100 100 820 620 SWP_NOMOVE)])
       ∧ windows_attributes_dict (placement_manager st') !! "a.exe"%string
         = Some wa'
       ∧ WindowAttributes.additional_width wa' = 20
       ∧ WindowAttributes.additional_height wa' = 20).
Proof.
  split.
  - intros os hwnd proc_name pm wa Hwa Haw0 Hah0 rect.
    destruct (process_window_spec os hwnd proc_name pm wa Hwa)
      as (pm' & log1 & log2 & wa' & Hrun & Hm & Hdict & _ & _ & _ & _ & _ & _
          & _ & _ & Hlog1 & Hlog2 & Hcorr).
    destruct (measure_spec rect wa) as (wa'' & Hmeq & Hw & Hh & Haw & Hah).
    unfold rect in Hmeq. rewrite Hmeq in Hm. simpl in Hm. subst wa''.
    exists pm', (log1 ++ log2), wa'. split_and!.
    + done.
    + by rewrite Hdict, lookup_insert_eq.
    + intros Hne. by rewrite Haw, bool_decide_eq_false_2.
    + intros Hne. by rewrite Hah, bool_decide_eq_false_2.
    + rewrite Haw. destruct (bool_decide (RECT.right rect - RECT.left rect = _)); lia.
    + rewrite Hah. destruct (bool_decide (RECT.bottom rect - RECT.top rect = _)); lia.
    + intros c Hc. apply elem_of_app in Hc as [Hc|Hc].
      * destruct (bool_decide _); [|subst log1; by apply elem_of_nil in Hc].
        destruct Hlog1 as (c1 & -> & _).
        apply list_elem_of_singleton in Hc. congruence.
      * destruct Hlog2 as [->|(c2 & -> & _ & Hcx & Hcy)];
          [by apply elem_of_nil in Hc|].
        apply list_elem_of_singleton in Hc. by injection Hc as ->.
    + intros Hrect Hsize. specialize (Hcorr Hrect Hsize).
      destruct Hlog2 as [->|(c2 & -> & _)]; [done|].
      exists c2. apply elem_of_app. right. by apply list_elem_of_singleton.
  - eexists _, _. split; [by vm_compute|]. by vm_compute.
Qed.

Lemma size_correction_clamped_and_used_witness :
  ∃ pm' log wa',
    process_window scenario_os 42 "a.exe"
      (enum_windows scenario_os (placement_manager scenario_start))
    = Ok (pm', log)
    ∧ windows_attributes_dict pm' !! "a.exe"%string = Some wa'
    ∧ WindowAttributes.additional_width wa' = 20
    ∧ WindowAttributes.additional_height wa' = 20
    ∧ ∃ c, (CorrectiveCall, c) ∈ log ∧ swp_cx c = 820 ∧ swp_cy c = 620.
Proof.
  destruct (proj1 size_correction_clamped_and_used scenario_os 42 "a.exe"%string
              (enum_windows scenario_os (placement_manager scenario_start))
              scenario_spec)
    as (pm' & log & wa' & Hrun & Hd & Hw & Hh & _ & _ & Hdim & Hex).
  - by vm_compute.
  - by vm_compute.
  - by vm_compute.
  - exists pm', log, wa'.
    assert (WindowAttributes.additional_width wa' = 20) as Hw'
      by (apply Hw; by vm_compute).
    assert (WindowAttributes.additional_height wa' = 20) as Hh'
      by (apply Hh; by vm_compute).
    split_and!; [exact Hrun|exact Hd|exact Hw'|exact Hh'|].
    destruct Hex as [c Hc]; [by eexists|left; by vm_compute|].
    exists c. split; [exact Hc|].
    destruct (Hdim c Hc) as [-> ->]. rewrite Hw', Hh'. by vm_compute.
Defined.

(** ** The retry counter *)

Lemma need_set_pos_call_spec hwnd p :
  (need_set_pos_call hwnd p).1
  = bool_decide (counter p hwnd < set_pos_max_count p)
  ∧ ∀ h, counter (need_set_pos_call hwnd p).2 h = counter p h.
Proof.
  unfold need_set_pos_call, counter.
  destruct (set_pos_calls p !! hwnd) as [n|] eqn:E; simpl; [done|].
  split; [done|]. intros h. rewrite lookup_insert.
  case_decide as Hh; [|done]. subst h. by rewrite E.
Qed.

Lemma config_preserved_refl p : config_preserved p p.
Proof. split_and!; try done. intros n wa H. by exists wa. Qed.

Lemma config_preserved_trans p1 p2 p3 :
  config_preserved p1 p2 → config_preserved p2 p3 → config_preserved p1 p3.
Proof.
  intros (Hg & Hn & Hm & He & Hd) (Hg' & Hn' & Hm' & He' & Hd').
  split_and!; [congruence|congruence|congruence| |].
  - intros n. by rewrite He', He.
  - intros n wa Hwa. destruct (Hd n wa Hwa) as (wa1 & H1 & Hw1 & Hh1).
    destruct (Hd' n wa1 H1) as (wa2 & H2 & Hw2 & Hh2).
    exists wa2. split_and!; congruence.
Qed.

Lemma process_window_config os hwnd proc_name pm pm' log :
  process_window os hwnd proc_name pm = Ok (pm', log) →
  config_preserved pm pm'.
Proof.
  intros Hrun.
  destruct (windows_attributes_dict pm !! proc_name) as [wa|] eqn:Hwa.
  - destruct (process_window_spec os hwnd proc_name pm wa Hwa)
      as (pm1 & log1 & log2 & wa' & Hrun' & Hm & Hdict & Hug & Hnames & Hmax
          & Hex & _).
    rewrite Hrun in Hrun'. injection Hrun' as -> _.
    destruct (measure_spec (DwmGetWindowAttribute os hwnd) wa)
      as (wa'' & Hmeq & Hw & Hh & _).
    rewrite Hmeq in Hm. simpl in Hm. subst wa''.
    split_and!; try done.
    + intros n. by rewrite Hex.
    + intros n wa0 Hwa0. rewrite Hdict, lookup_insert.
      destruct (decide (proc_name = n)) as [<-|Hn].
      * exists wa'. split; [done|]. split; congruence.
      * by exists wa0.
  - unfold process_window in Hrun. by rewrite Hwa in Hrun.
Qed.

Lemma process_window_counter_mono os hwnd proc_name pm pm' log h :
  process_window os hwnd proc_name pm = Ok (pm', log) →
  counter pm h ≤ counter pm' h.
Proof.
  intros Hrun.
  destruct (windows_attributes_dict pm !! proc_name) as [wa|] eqn:Hwa.
  - destruct (process_window_spec os hwnd proc_name pm wa Hwa)
      as (pm1 & log1 & log2 & wa' & Hrun' & _ & _ & _ & _ & _ & _ & _ & _
          & Hc & Hoth & _).
    rewrite Hrun in Hrun'. injection Hrun' as -> _.
    destruct (decide (h = hwnd)) as [->|Hne].
    + rewrite Hc. destruct (bool_decide _); lia.
    + by rewrite Hoth.
  - unfold process_window in Hrun. by rewrite Hwa in Hrun.
Qed.

Lemma bind_Ok {A B} (r : result A) (k : A → result B) b :
  r ≫= k = Ok b → ∃ a, r = Ok a ∧ k a = Ok b.
Proof. destruct r as [a|e]; [|done]. intros H. by exists a. Qed.

Lemma process_windows_counter_mono os l : ∀ pm pm' log h,
  process_windows os l pm = Ok (pm', log) →
  counter pm h ≤ counter pm' h.
Proof.
  induction l as [|[hwnd n] l IH]; intros pm pm' log h; simpl.
  - intros [= <- _]. lia.
  - intros ([pm1 log1] & H1 & H2)%bind_Ok.
    apply bind_Ok in H2 as ([pm2 log2] & H2 & [= <- _]).
    pose proof (process_window_counter_mono _ _ _ _ _ _ h H1).
    pose proof (IH _ _ _ h H2). lia.
Qed.

Lemma process_window_calls os hwnd proc_name pm wa pm' log h :
  windows_attributes_dict pm !! proc_name = Some wa →
  process_window os hwnd proc_name pm = Ok (pm', log) →
  length (calls_at GuardedCall h log)
  = (if decide (h = hwnd)
     then if bool_decide (counter pm hwnd < set_pos_max_count pm)
          then 1%nat else 0%nat
     else 0%nat)
  ∧ (h ≠ hwnd → calls_to h log = [])
  ∧ (is_Some (GetWindowRect os hwnd) →
     RECT.right (DwmGetWindowAttribute os hwnd)
       - RECT.left (DwmGetWindowAttribute os hwnd)
       ≠ WindowAttributes.width wa
     ∨ RECT.bottom (DwmGetWindowAttribute os hwnd)
         - RECT.top (DwmGetWindowAttribute os hwnd)
       ≠ WindowAttributes.height wa →
     calls_at CorrectiveCall hwnd log ≠ []).
Proof.
  intros Hwa Hrun.
  destruct (process_window_spec os hwnd proc_name pm wa Hwa)
    as (pm1 & log1 & log2 & wa' & Hrun' & _ & _ & _ & _ & _ & _ & _ & _
        & _ & _ & Hlog1 & Hlog2 & Hcorr).
  rewrite Hrun in Hrun'. injection Hrun' as -> ->.
  unfold calls_at, calls_to. rewrite !filter_app, !length_app.
  assert (log2 = [] ∨ ∃ c, log2 = [(CorrectiveCall, c)] ∧ swp_hwnd c = hwnd)
    as Hl2 by (destruct Hlog2 as [?|(c & ? & ? & _)]; eauto).
  clear Hlog2.
  split_and!.
  - assert (length (filter (λ e : call_site * SetWindowPos,
                              e.1 = GuardedCall ∧ swp_hwnd e.2 = h) log2) = 0%nat)
      as ->.
    { destruct Hl2 as [->|(c & -> & _)]; [done|].
      rewrite filter_cons, decide_False by (by intros [? _]). done. }
    rewrite Nat.add_0_r.
    destruct (bool_decide (counter pm hwnd < set_pos_max_count pm)).
    + destruct Hlog1 as (c & -> & Hc & _). rewrite filter_cons. simpl.
      destruct (decide (h = hwnd)) as [->|Hne].
      * by rewrite decide_True.
      * rewrite decide_False; [done|]. intros [_ ?]. congruence.
    + subst log1. by destruct (decide (h = hwnd)).
  - intros Hne.
    assert (filter (λ e : call_site * SetWindowPos, swp_hwnd e.2 = h) log2 = [])
      as ->.
    { destruct Hl2 as [->|(c & -> & Hc)]; [done|].
      rewrite filter_cons. simpl. rewrite decide_False; [done|]. congruence. }
    rewrite app_nil_r.
    destruct (bool_decide (counter pm hwnd < set_pos_max_count pm)).
    + destruct Hlog1 as (c & -> & Hc & _). rewrite filter_cons. simpl.
      rewrite decide_False; [done|]. congruence.
    + by subst log1.
  - intros Hrect Hsize. specialize (Hcorr Hrect Hsize).
    destruct Hl2 as [->|(c & -> & Hc)]; [done|].
    rewrite (filter_cons _ (CorrectiveCall, c)). simpl.
    rewrite decide_True by done. intros Habs.
    apply app_eq_nil in Habs as [_ Habs]. done.
Qed.

Lemma process_windows_spec os : ∀ l pm,
  NoDup l.*1 →
  (∀ h n, (h, n) ∈ l → is_Some (windows_attributes_dict pm !! n)) →
  ∃ pm' log,
    process_windows os l pm = Ok (pm', log)
    ∧ config_preserved pm pm'
    ∧ hwnd_to_name pm' = hwnd_to_name pm
    ∧ (∀ h, counter pm' h
            = if decide (h ∈ l.*1)
              then if bool_decide (counter pm h < set_pos_max_count pm)
                   then counter pm h + 1 else counter pm h
              else counter pm h)
    ∧ (∀ h, length (calls_at GuardedCall h log)
            = (if decide (h ∈ l.*1)
               then if bool_decide (counter pm h < set_pos_max_count pm)
                    then 1%nat else 0%nat
               else 0%nat))
    ∧ (∀ h n wa, (h, n) ∈ l →
         windows_attributes_dict pm !! n = Some wa →
         is_Some (GetWindowRect os h) →
         RECT.right (DwmGetWindowAttribute os h)
           - RECT.left (DwmGetWindowAttribute os h)
           ≠ WindowAttributes.width wa
         ∨ RECT.bottom (DwmGetWindowAttribute os h)
             - RECT.top (DwmGetWindowAttribute os h)
           ≠ WindowAttributes.height wa →
         calls_at CorrectiveCall h log ≠ []).
Proof.
  induction l as [|[hwnd n] l IH]; intros pm Hnd Hdict.
  - exists pm, []. split_and!; try done.
    + apply config_preserved_refl.
    + intros h n wa Hin. by apply elem_of_nil in Hin.
  - rewrite fmap_cons in Hnd. cbn [fst] in Hnd.
    apply NoDup_cons in Hnd as [Hnin Hnd].
    destruct (Hdict hwnd n) as [wa Hwa]; [by left|].
    destruct (process_window_spec os hwnd n pm wa Hwa)
      as (pm1 & log1a & log1b & wa' & Hrun1 & _ & _ & _ & _ & Hmax1 & _ & Hreg1
          & _ & Hc1 & Hoth1 & _).
    pose proof (process_window_config _ _ _ _ _ _ Hrun1) as Hcfg1.
    destruct (IH pm1 Hnd) as (pm2 & log2 & Hrun2 & Hcfg2 & Hreg2 & Hc2 & Hg2 & Hk2).
    { intros h n' Hin. destruct (Hdict h n') as [wa0 Hwa0]; [by right|].
      destruct Hcfg1 as (_ & _ & _ & _ & Hd).
      destruct (Hd n' wa0 Hwa0) as (wa1 & -> & _). by eexists. }
    exists pm2, ((log1a ++ log1b) ++ log2). split.
    { cbn [process_windows]. rewrite Hrun1. cbn [mbind result_bind].
      by rewrite Hrun2. }
    rewrite fmap_cons. cbn [fst].
    split_and!.
    + by eapply config_preserved_trans.
    + congruence.
    + intros h. rewrite Hc2, Hmax1.
      destruct (decide (h = hwnd)) as [->|Hne].
      * rewrite (decide_False (P := hwnd ∈ l.*1)) by done.
        rewrite (decide_True (P := hwnd ∈ hwnd :: l.*1)) by (by left).
        done.
      * rewrite Hoth1 by done.
        destruct (decide (h ∈ l.*1)) as [Hin|Hnin'].
        -- rewrite decide_True by (by right). done.
        -- rewrite decide_False; [done|]. by intros [?|?]%elem_of_cons.
    + intros h.
      destruct (process_window_calls os hwnd n pm wa pm1 (log1a ++ log1b) h Hwa Hrun1)
        as (Hg1 & _ & _).
      unfold calls_at in *. rewrite filter_app, length_app, Hg1, Hg2, Hmax1.
      destruct (decide (h = hwnd)) as [->|Hne].
      * rewrite (decide_False (P := hwnd ∈ l.*1)) by done.
        rewrite (decide_True (P := hwnd ∈ hwnd :: l.*1)) by (by left).
        lia.
      * rewrite Hoth1 by done.
        destruct (decide (h ∈ l.*1)) as [Hin|Hnin'].
        -- rewrite decide_True by (by right). done.
        -- rewrite decide_False; [done|]. by intros [?|?]%elem_of_cons.
    + intros h n' wa0 Hin Hwa0 Hrect Hsize.
      unfold calls_at. rewrite filter_app. intros Habs.
      apply app_eq_nil in Habs as [Habs1 Habs2].
      apply elem_of_cons in Hin as [[= -> ->]|Hin].
      * destruct (process_window_calls os hwnd n pm wa pm1 (log1a ++ log1b) hwnd
                    Hwa Hrun1) as (_ & _ & Hk1).
        assert (wa0 = wa) as -> by congruence.
        by apply (Hk1 Hrect Hsize).
      * destruct Hcfg1 as (_ & _ & _ & _ & Hd).
        destruct (Hd n' wa0 Hwa0) as (wa1 & Hwa1 & Hw & Hh).
        apply (Hk2 h n' wa1 Hin Hwa1 Hrect); [|done].
        by rewrite Hw, Hh.
Qed.

(** ** What the rest of a tick leaves alone *)

Lemma move_to_cell_set_pos_calls hwnd dest p :
  set_pos_calls (move_to_cell hwnd dest p) = set_pos_calls p.
Proof.
  unfold move_to_cell, get_cell.
  destruct (decide (hwnd_at p dest = hwnd)); [done|].
  destruct (hwnd_to_cels p !! hwnd) as [c|].
  - destruct (decide (_ ∧ _)); [done|].
    by destruct (decide (hwnd_at (write_hwnd c 0 p) dest = 0)).
  - destruct (free_cell p) as [i|].
    + destruct (decide (_ ∧ _)); [done|].
      by destruct (decide (hwnd_at (write_hwnd i 0 (link_cell hwnd i p)) dest = 0)).
    + by destruct (decide (hwnd_at p dest = 0)).
Qed.

Lemma dict_set_NoDup k v l : NoDup l.*1 → NoDup (dict_set k v l).*1.
Proof.
  induction l as [|[k0 v0] l IH]; simpl.
  - intros _. apply NoDup_singleton.
  - rewrite NoDup_cons. intros [Hnin Hnd].
    destruct (decide (k0 = k)) as [->|Hne]; simpl.
    + by apply NoDup_cons.
    + apply NoDup_cons. split; [|by apply IH].
      rewrite dict_set_keys. intros [?|?]; done.
Qed.

Lemma dict_set_elem k v l k' v' :
  (k', v') ∈ dict_set k v l → (k', v') = (k, v) ∨ (k', v') ∈ l.
Proof.
  induction l as [|[k0 v0] l IH]; simpl.
  - intros ->%list_elem_of_singleton. by left.
  - destruct (decide (k0 = k)) as [->|Hne].
    + intros [->|?]%elem_of_cons; [by left|right; by right].
    + intros [->|Hin]%elem_of_cons; [right; by left|].
      destruct (IH Hin) as [?|?]; [by left|right; by right].
Qed.

Lemma winEnumHandler_registry os hwnd pm :
  set_pos_calls (winEnumHandler os hwnd pm) = set_pos_calls pm
  ∧ config_preserved pm (winEnumHandler os hwnd pm)
  ∧ (NoDup (hwnd_to_name pm).*1 → NoDup (hwnd_to_name (winEnumHandler os hwnd pm)).*1)
  ∧ (∀ h n, (h, n) ∈ hwnd_to_name (winEnumHandler os hwnd pm) →
       (h, n) ∈ hwnd_to_name pm
       ∨ (n ∈ windows_attributes_name pm ∧ process_image (window os h) = Some n)).
Proof.
  destruct (winEnumHandler_frame os hwnd pm) as (_ & _ & Hn & Hex & _).
  assert (set_pos_calls (winEnumHandler os hwnd pm) = set_pos_calls pm
          ∧ using_grid (winEnumHandler os hwnd pm) = using_grid pm
          ∧ set_pos_max_count (winEnumHandler os hwnd pm) = set_pos_max_count pm
          ∧ windows_attributes_dict (winEnumHandler os hwnd pm)
            = windows_attributes_dict pm
          ∧ (NoDup (hwnd_to_name pm).*1 →
             NoDup (hwnd_to_name (winEnumHandler os hwnd pm)).*1)
          ∧ (∀ h n, (h, n) ∈ hwnd_to_name (winEnumHandler os hwnd pm) →
               (h, n) ∈ hwnd_to_name pm
               ∨ (n ∈ windows_attributes_name pm
                  ∧ process_image (window os h) = Some n)))
    as (Hc & Hg & Hm & Hd & Hnd & Hreg).
  { unfold winEnumHandler.
    destruct (IsWindowVisible (window os hwnd)); [|by eauto 10].
    destruct (process_image (window os hwnd)) as [name|] eqn:Hp; [|by eauto 10].
    simpl windows_attributes_name.
    destruct (bool_decide_reflect (name ∈ windows_attributes_name pm)) as [Hin|];
      [|by eauto 10].
    unfold is_exclude_window. simpl exclude_window_names.
    destruct (exclude_window_names pm !! name) as [s|]; simpl.
    - destruct (bool_decide _); simpl; [by eauto 10|].
      split_and!; try done; [apply dict_set_NoDup|].
      intros h n [[= -> ->]|?]%dict_set_elem; [right|left]; done.
    - split_and!; try done; [apply dict_set_NoDup|].
      intros h n [[= -> ->]|?]%dict_set_elem; [right|left]; done. }
  split_and!; try done.
  split_and!; try done.
  intros n wa Hwa. exists wa. by rewrite Hd.
Qed.

Lemma enum_windows_registry os : ∀ l pm,
  let pm' := foldl (λ pm hwnd, winEnumHandler os hwnd pm) pm l in
  set_pos_calls pm' = set_pos_calls pm
  ∧ config_preserved pm pm'
  ∧ (NoDup (hwnd_to_name pm).*1 → NoDup (hwnd_to_name pm').*1)
  ∧ (∀ h n, (h, n) ∈ hwnd_to_name pm' →
       (h, n) ∈ hwnd_to_name pm
       ∨ (n ∈ windows_attributes_name pm ∧ process_image (window os h) = Some n)).
Proof.
  induction l as [|hwnd l IH]; intros pm; simpl.
  - split_and!; try done; [apply config_preserved_refl|by left].
  - destruct (IH (winEnumHandler os hwnd pm)) as (Hc & Hcfg & Hnd & Hreg).
    destruct (winEnumHandler_registry os hwnd pm) as (Hc1 & Hcfg1 & Hnd1 & Hreg1).
    split_and!.
    + congruence.
    + by eapply config_preserved_trans.
    + auto.
    + intros h n Hin. destruct (Hreg h n Hin) as [Hin'|[Hn Hp]].
      * by apply Hreg1.
      * right. split; [|done]. destruct Hcfg1 as (_ & <- & _). done.
Qed.

Lemma eligible_config os p p' h :
  config_preserved p p' → eligible os p' h ↔ eligible os p h.
Proof.
  intros (_ & Hn & _ & Hex & _). unfold eligible. rewrite Hn.
  by setoid_rewrite Hex.
Qed.

(** The counter of a handle is never lowered by a tick. *)
Lemma resize_window_tick_counter_mono os st st' log h :
  resize_window_tick os st = Ok (st', log) →
  counter (placement_manager st) h ≤ counter (placement_manager st') h.
Proof.
  unfold resize_window_tick.
  destruct (MouseTracker.is_left_mouse_button_hold _ _ _) as [is_hold mt].
  intros ([pm1 log1] & H1 & H2)%bind_Ok.
  apply bind_Ok in H2 as (pm2 & H2 & [= <- _]).
  assert (counter (placement_manager st) h ≤ counter pm1 h) as Hle1.
  { destruct (enum_windows_registry os (EnumWindows os) (placement_manager st))
      as (Hc & _).
    destruct (negb (prev_is_hold st) && negb is_hold).
    - apply process_windows_counter_mono with (h := h) in H1.
      unfold counter in *. unfold enum_windows in H1. by rewrite Hc in H1.
    - injection H1 as <- _. unfold counter, enum_windows. by rewrite Hc. }
  assert (counter pm1 h ≤ counter pm2 h) as Hle2.
  { destruct (prev_is_hold st && negb is_hold).
    - unfold processing_window_change_pos in H2.
      destruct (negb _ || negb _); [injection H2 as <-; lia|].
      destruct (GetWindowRect os (WindowFromPoint os)); [|injection H2 as <-; lia].
      apply bind_Ok in H2 as (cell & _ & [= <-]).
      unfold counter. rewrite move_to_cell_set_pos_calls. lia.
    - injection H2 as <-. lia. }
  simpl. unfold counter in *. simpl. lia.
Qed.

(** ** Ticks with the button up *)

Lemma resize_window_tick_released os st pm0 h :
  tracked_have_attributes pm0 →
  idle_loop pm0 st →
  left_button_down os = false →
  h ∈ EnumWindows os →
  eligible os pm0 h →
  ∃ st' log,
    resize_window_tick os st = Ok (st', log)
    ∧ idle_loop pm0 st'
    ∧ counter (placement_manager st') h
      = (if bool_decide (counter (placement_manager st) h < set_pos_max_count pm0)
         then counter (placement_manager st) h + 1
         else counter (placement_manager st) h)
    ∧ length (calls_at GuardedCall h log)
      = (if bool_decide (counter (placement_manager st) h < set_pos_max_count pm0)
         then 1%nat else 0%nat)
    ∧ (∀ name wa,
         process_image (window os h) = Some name →
         windows_attributes_dict pm0 !! name = Some wa →
         is_Some (GetWindowRect os h) →
         RECT.right (DwmGetWindowAttribute os h)
           - RECT.left (DwmGetWindowAttribute os h)
           ≠ WindowAttributes.width wa
         ∨ RECT.bottom (DwmGetWindowAttribute os h)
             - RECT.top (DwmGetWindowAttribute os h)
           ≠ WindowAttributes.height wa →
         calls_at CorrectiveCall h log ≠ []).
Proof.
  intros Htr (Hprev & Hhold & Hreg0 & Hcfg0) Hup Hin Hel.
  set (pm := placement_manager st) in *.
  destruct (enum_windows_registry os (EnumWindows os) pm)
    as (Hc1 & Hcfg1 & Hnd1 & Hreg1).
  destruct (enum_windows_frame os (EnumWindows os) pm) as (_ & _ & _ & Hkeys).
  fold (enum_windows os pm) in Hc1, Hcfg1, Hnd1, Hreg1, Hkeys.
  set (pm1 := enum_windows os pm) in *.
  assert (config_preserved pm0 pm1) as Hcfg01
    by (by eapply config_preserved_trans).
  assert (∀ h' n, (h', n) ∈ hwnd_to_name pm1 →
            n ∈ windows_attributes_name pm0
            ∧ process_image (window os h') = Some n) as Hreg1'.
  { intros h' n Hin'. destruct (Hreg1 h' n Hin') as [Habs|[Hn Hp]].
    - rewrite Hreg0 in Habs. by apply elem_of_nil in Habs.
    - split; [|done]. destruct Hcfg0 as (_ & <- & _). done. }
  destruct (process_windows_spec os (hwnd_to_name pm1) pm1)
    as (pm2 & log & Hrun & Hcfg2 & Hreg2 & Hcnt & Hg & Hk).
  { apply Hnd1. rewrite Hreg0. constructor. }
  { intros h' n Hin'. destruct (Hreg1' h' n Hin') as [Hn _].
    destruct (Htr n Hn) as [wa Hwa].
    destruct Hcfg01 as (_ & _ & _ & _ & Hd).
    destruct (Hd n wa Hwa) as (wa1 & -> & _). by eexists. }
  assert (h ∈ (hwnd_to_name pm1).*1) as Hhreg.
  { apply Hkeys. right. split; [done|]. by apply (eligible_config os pm0 pm). }
  assert (counter pm1 h = counter pm h) as Hc1'
    by (unfold counter; by rewrite Hc1).
  assert (set_pos_max_count pm1 = set_pos_max_count pm0) as Hmax
    by (by destruct Hcfg01 as (_ & _ & ? & _)).
  exists (mkLoop (reset pm2) (mouse_tracker st) false), log.
  split_and!.
  - unfold resize_window_tick. fold pm. fold pm1.
    unfold MouseTracker.is_left_mouse_button_hold.
    rewrite Hup, Hhold, Hprev. cbn [negb andb].
    unfold processing_detected_windows, registered_processes_iter.
    rewrite Hrun. cbn [mbind result_bind]. by destruct st.
  - split_and!; try done. cbn [placement_manager].
    eapply config_preserved_trans; [exact Hcfg01|].
    eapply config_preserved_trans; [exact Hcfg2|].
    split_and!; try done. intros n wa Hwa. by exists wa.
  - cbn [placement_manager].
    change (counter (reset pm2) h) with (counter pm2 h).
    by rewrite Hcnt, decide_True, Hc1', Hmax.
  - by rewrite Hg, decide_True, Hc1', Hmax.
  - intros name wa Hp Hwa Hrect Hsize.
    apply list_elem_of_fmap in Hhreg as ([h' n] & Heq & Hin').
    simpl in Heq. subst h'.
    destruct (Hreg1' h n Hin') as [_ Hp'].
    assert (n = name) as -> by congruence.
    destruct Hcfg01 as (_ & _ & _ & _ & Hd).
    destruct (Hd name wa Hwa) as (wa1 & Hwa1 & Hw & Hh).
    apply (Hk h name wa1 Hin' Hwa1 Hrect). by rewrite Hw, Hh.
Qed.

Lemma resize_window_released pm0 h :
  tracked_have_attributes pm0 →
  ∀ ticks st,
    idle_loop pm0 st →
    Forall (λ os, left_button_down os = false ∧ h ∈ EnumWindows os
                  ∧ eligible os pm0 h) ticks →
    ∃ st' logs,
      resize_window ticks st = Ok (st', logs)
      ∧ idle_loop pm0 st'
      ∧ length logs = length ticks
      ∧ (∀ k log, logs !! k = Some log →
           length (calls_at GuardedCall h log)
           = if bool_decide (counter (placement_manager st) h + Z.of_nat k
                             < set_pos_max_count pm0)
             then 1%nat else 0%nat)
      ∧ counter (placement_manager st') h
        = Z.max (counter (placement_manager st) h)
                (Z.min (counter (placement_manager st) h + Z.of_nat (length ticks))
                       (set_pos_max_count pm0))
      ∧ (∀ k os log name wa,
           ticks !! k = Some os → logs !! k = Some log →
           process_image (window os h) = Some name →
           windows_attributes_dict pm0 !! name = Some wa →
           is_Some (GetWindowRect os h) →
           RECT.right (DwmGetWindowAttribute os h)
             - RECT.left (DwmGetWindowAttribute os h)
             ≠ WindowAttributes.width wa
           ∨ RECT.bottom (DwmGetWindowAttribute os h)
               - RECT.top (DwmGetWindowAttribute os h)
             ≠ WindowAttributes.height wa →
           calls_at CorrectiveCall h log ≠ []).
Proof.
  intros Htr. induction ticks as [|os ticks IH]; intros st Hidle Hall.
  - exists st, []. split_and!; try done.
    all: try (simpl; lia).
    all: try (intros k os log name wa Hk; by rewrite lookup_nil in Hk).
  - apply Forall_cons in Hall as [(Hup & Hin & Hel) Hall].
    destruct (resize_window_tick_released os st pm0 h Htr Hidle Hup Hin Hel)
      as (st1 & log & Hrun1 & Hidle1 & Hc1 & Hg1 & Hk1).
    destruct (IH st1 Hidle1 Hall) as (st2 & logs & Hrun2 & Hidle2 & Hlen & Hg & Hc & Hk).
    exists st2, (log :: logs). split_and!.
    + cbn [resize_window]. rewrite Hrun1. cbn [mbind result_bind].
      by rewrite Hrun2.
    + done.
    + simpl. by rewrite Hlen.
    + intros [|k] log' Hlog'; simpl in Hlog'.
      * injection Hlog' as <-. rewrite Hg1. by rewrite Z.add_0_r.
      * rewrite (Hg k log' Hlog'), Hc1.
        destruct (bool_decide_reflect
                    (counter (placement_manager st) h < set_pos_max_count pm0)).
        -- replace (Z.of_nat (S k)) with (1 + Z.of_nat k) by lia.
           by rewrite Z.add_assoc.
        -- rewrite !bool_decide_eq_false_2; [done|lia|lia].
    + rewrite Hc, Hc1. cbn [length].
      destruct (bool_decide_reflect
                  (counter (placement_manager st) h < set_pos_max_count pm0)); lia.
    + intros [|k] os' log' name wa Hos Hlog'; simpl in Hos, Hlog'.
      * injection Hos as <-. injection Hlog' as <-. by apply Hk1.
      * by apply (Hk k).
Qed.

Lemma init_tracked_have_attributes was ug g :
  tracked_have_attributes (PlacementManager.init was ug g).
Proof.
  unfold tracked_have_attributes. simpl. intros n Hn.
  apply elem_of_list_to_set in Hn.
  assert (∀ (l : list WindowAttributes.t) (d : gmap string WindowAttributes.t),
            is_Some (d !! n) ∨ n ∈ WindowAttributes.process_name <$> l →
            is_Some (foldl (λ d w, <[WindowAttributes.process_name w := w]> d) d l
                     !! n)) as Hfold.
  { induction l as [|w l IH]; intros d Hd; simpl.
    - destruct Hd as [?|Habs]; [done|]. by apply elem_of_nil in Habs.
    - apply IH. rewrite fmap_cons in Hd.
      destruct (decide (WindowAttributes.process_name w = n)) as [<-|Hne].
      + left. rewrite lookup_insert_eq. by eexists.
      + rewrite lookup_insert_ne by done.
        destruct Hd as [?|[?|?]%elem_of_cons]; [by left|congruence|by right]. }
  apply Hfold. by right.
Qed.

(** C4 (as amended).  [need_set_pos_call] is true exactly while the
    handle's counter is below the ceiling, which is 5; no tick lowers a
    counter.  Over ticks with the button up in which a window is enumerated
    and eligible, the call guarded by the counter is issued to it once in
    each of the first 5 ticks and never afterwards.  The corrective call at
    the end of the pass is not guarded: in every such tick in which the
    window exists and its measured size differs from the target, it is
    issued. *)
Theorem guarded_calls_stop_at_ceiling :
  (∀ hwnd p,
     (need_set_pos_call hwnd p).1
     = bool_decide (counter p hwnd < set_pos_max_count p))
  ∧ (∀ was ug g, set_pos_max_count (PlacementManager.init was ug g) = 5)
  ∧ (∀ os st st' log h,
       resize_window_tick os st = Ok (st', log) →
       counter (placement_manager st) h ≤ counter (placement_manager st') h)
  ∧ (∀ was ug g t0 thr ticks h,
       Forall (λ os, left_button_down os = false ∧ h ∈ EnumWindows os
                     ∧ eligible os (PlacementManager.init was ug g) h) ticks →
       ∃ st' logs,
         resize_window ticks
           (mkLoop (PlacementManager.init was ug g) (MouseTracker.init t0 thr) false)
         = Ok (st', logs)
         ∧ length logs = length ticks
         ∧ (∀ k log, logs !! k = Some log →
              length (calls_at GuardedCall h log)
              = if decide (k < 5)%nat then 1%nat else 0%nat)
         ∧ counter (placement_manager st') h = Z.min (Z.of_nat (length ticks)) 5
         ∧ (∀ k os log name wa,
              ticks !! k = Some os → logs !! k = Some log →
              process_image (window os h) = Some name →
              windows_attributes_dict (PlacementManager.init was ug g) !! name
              = Some wa →
              is_Some (GetWindowRect os h) →
              RECT.right (DwmGetWindowAttribute os h)
                - RECT.left (DwmGetWindowAttribute os h)
                ≠ WindowAttributes.width wa
              ∨ RECT.bottom (DwmGetWindowAttribute os h)
                  - RECT.top (DwmGetWindowAttribute os h)
                ≠ WindowAttributes.height wa →
              calls_at CorrectiveCall h log ≠ [])).
Proof.
  split_and!.
  - intros hwnd p. apply need_set_pos_call_spec.
  - done.
  - intros os st st' log h. apply resize_window_tick_counter_mono.
  - intros was ug g t0 thr ticks h Hall.
    destruct (resize_window_released (PlacementManager.init was ug g) h
                (init_tracked_have_attributes was ug g) ticks
                (mkLoop (PlacementManager.init was ug g)
                        (MouseTracker.init t0 thr) false))
      as (st' & logs & Hrun & _ & Hlen & Hg & Hc & Hk).
    { split_and!; try done. apply config_preserved_refl. }
    { done. }
    exists st', logs. split_and!; try done.
    + intros k log Hlog. rewrite (Hg k log Hlog).
      change (counter (placement_manager _) h) with 0.
      change (set_pos_max_count _) with 5.
      destruct (decide (k < 5)%nat).
      * by rewrite bool_decide_eq_true_2 by lia.
      * by rewrite bool_decide_eq_false_2 by lia.
    + rewrite Hc.
      change (counter (placement_manager _) h) with 0.
      change (set_pos_max_count _) with 5. lia.
Qed.

Lemma guarded_calls_stop_at_ceiling_witness :
  ∃ st' logs,
    resize_window (replicate 7 scenario_os) scenario_start = Ok (st', logs)
    ∧ length logs = 7%nat
    ∧ (∀ k log, logs !! k = Some log →
         length (calls_at GuardedCall 42 log)
         = if decide (k < 5)%nat then 1%nat else 0%nat)
    ∧ counter (placement_manager st') 42 = 5.
Proof.
  destruct (proj2 (proj2 (proj2 guarded_calls_stop_at_ceiling))
              [scenario_spec] false [] 0 100 (replicate 7 scenario_os) 42)
    as (st' & logs & Hrun & Hlen & Hg & Hc & _).
  - apply Forall_replicate. split_and!.
    + reflexivity.
    + apply list_elem_of_singleton. reflexivity.
    + split; [reflexivity|]. exists "a.exe"%string.
      split_and!; [reflexivity|by vm_compute|by vm_compute].
  - exists st', logs. split_and!; [exact Hrun|exact Hlen|exact Hg|exact Hc].
Defined.

(** C4 (as stated) fails on the count of calls: in the scenario the window
    never reaches its size; it receives two calls in each of the first five
    ticks, ten in all, and still one, the corrective call, in every later
    tick. *)
Lemma window_receives_calls_after_ceiling :
  ∃ st' logs,
    resize_window (replicate 7 scenario_os) scenario_start = Ok (st', logs)
    ∧ (λ log, length (calls_to 42 log)) <$> logs = [2; 2; 2; 2; 2; 1; 1]%nat
    ∧ counter (placement_manager st') 42 = 5
    ∧ logs !! 6%nat
      = Some [(CorrectiveCall,
               mkSetWindowPos 42 HWND_NOTOPMOST 100 100 820 620 SWP_NOMOVE)].
Proof. eexists _, _. split; [by vm_compute|]. by vm_compute. Qed.


(** * Further properties of the daemon *)

(** ** A press that lasts *)

Lemma samples_pressed_while_tracking (m : MouseTracker.t) (ts : list Z) :
  MouseTracker.is_holding m = true →
  MouseTracker.samples ((λ t, (true, t)) <$> ts) m
  = ((λ t, bool_decide (MouseTracker.hold_threshold m
                        ≤ t - MouseTracker.hold_start_time m)) <$> ts, m).
Proof.
  intros Hh. induction ts as [|t ts IH]; [done|].
  rewrite !fmap_cons. cbn [MouseTracker.samples].
  unfold MouseTracker.is_left_mouse_button_hold. rewrite Hh. cbn [negb].
  destruct (Z.leb_spec (MouseTracker.hold_threshold m)
              (t - MouseTracker.hold_start_time m)).
  - rewrite IH. by rewrite bool_decide_eq_true_2.
  - rewrite IH. by rewrite bool_decide_eq_false_2 by lia.
Qed.

(** X1.  A press sampled while the detector tracks nothing starts the
    timing and is not reported; as long as the button stays down, a sample
    reports a hold exactly when at least the threshold has elapsed since
    that first pressed sample, and the start time is not moved. *)
Theorem continuous_press_held_from_threshold
    (m : MouseTracker.t) (t0 : Z) (ts : list Z) :
  MouseTracker.is_holding m = false →
  (MouseTracker.samples ((true, t0) :: ((λ t, (true, t)) <$> ts)) m).1
  = false :: ((λ t, bool_decide (MouseTracker.hold_threshold m ≤ t - t0)) <$> ts)
  ∧ MouseTracker.hold_start_time
      (MouseTracker.samples ((true, t0) :: ((λ t, (true, t)) <$> ts)) m).2 = t0
  ∧ MouseTracker.is_holding
      (MouseTracker.samples ((true, t0) :: ((λ t, (true, t)) <$> ts)) m).2 = true.
Proof.
  intros Hh. cbn [MouseTracker.samples].
  unfold MouseTracker.is_left_mouse_button_hold. rewrite Hh. cbn [negb].
  by rewrite samples_pressed_while_tracking.
Qed.

Lemma continuous_press_held_from_threshold_witness :
  (MouseTracker.samples [(true, 10); (true, 60); (true, 110); (true, 150)]
     (MouseTracker.init 0 100)).1
  = [false; false; true; true].
Proof.
  exact (proj1 (continuous_press_held_from_threshold
                  (MouseTracker.init 0 100) 10 [60; 110; 150] eq_refl)).
Defined.

(** ** What the enumeration of a tick finds *)

(** X2.  Starting from the cleared per-tick state, the enumeration leaves
    exactly the visible enumerated windows in the live set and registers
    exactly the enumerated eligible ones, each once, under the image name of
    its process; every registered window is live. *)
Theorem enum_windows_from_cleared_state (os : OS) (pm : PlacementManager.t) :
  hwnd_to_name pm = [] →
  all_hwnd pm = ∅ →
  (∀ h, h ∈ all_hwnd (enum_windows os pm)
        ↔ h ∈ EnumWindows os ∧ IsWindowVisible (window os h) = true)
  ∧ (∀ h, is_registered_hwnd h (enum_windows os pm) = true
          ↔ h ∈ EnumWindows os ∧ eligible os pm h)
  ∧ NoDup (registered_processes_iter (enum_windows os pm)).*1
  ∧ (∀ h n, (h, n) ∈ registered_processes_iter (enum_windows os pm) →
       process_image (window os h) = Some n
       ∧ h ∈ all_hwnd (enum_windows os pm)).
Proof.
  intros Hreg0 Hlive0. unfold enum_windows, registered_processes_iter.
  destruct (enum_windows_frame os (EnumWindows os) pm) as (_ & _ & Hl & Hr).
  destruct (enum_windows_registry os (EnumWindows os) pm) as (_ & _ & Hnd & Hn).
  assert (∀ h, h ∈ (hwnd_to_name (foldl (λ pm hwnd, winEnumHandler os hwnd pm)
                                    pm (EnumWindows os))).*1
               ↔ h ∈ EnumWindows os ∧ eligible os pm h) as Hr'.
  { intros h. rewrite Hr, Hreg0. split; [|by right].
    intros [Habs|?]; [|done]. by apply elem_of_nil in Habs. }
  assert (∀ h, h ∈ all_hwnd (foldl (λ pm hwnd, winEnumHandler os hwnd pm)
                               pm (EnumWindows os))
               ↔ h ∈ EnumWindows os ∧ IsWindowVisible (window os h) = true)
    as Hl'.
  { intros h. rewrite Hl, Hlive0. split; [|by right].
    intros [Habs|?]; [|done]. by apply not_elem_of_empty in Habs. }
  split_and!.
  - done.
  - intros h. unfold is_registered_hwnd. by rewrite bool_decide_eq_true.
  - apply Hnd. rewrite Hreg0. constructor.
  - intros h n Hin. split.
    + destruct (Hn h n Hin) as [Habs|[_ ?]]; [|done].
      rewrite Hreg0 in Habs. by apply elem_of_nil in Habs.
    + apply Hl'. assert (h ∈ EnumWindows os ∧ eligible os pm h) as [? [? _]].
      { apply Hr'. apply list_elem_of_fmap. by exists (h, n). }
      done.
Qed.

Lemma enum_windows_from_cleared_state_witness :
  let os := mkOS [11; 12; 13]
              (λ h, if h =? 11
                    then mkWindowInfo true "Settings" (Some "a.exe"%string)
                    else if h =? 12
                         then mkWindowInfo true "main" (Some "a.exe"%string)
                         else mkWindowInfo false "hidden" (Some "a.exe"%string))
              (λ _, RECT.mk 0 0 0 0) (λ _, None) (0, 0) 0 false 0 in
  let pm := PlacementManager.init
              [WindowAttributes.mk "a.exe" 800 600 0 0 false ["Settings"%string] 0 0]
              false [] in
  NoDup (registered_processes_iter (enum_windows os pm)).*1
  ∧ is_registered_hwnd 12 (enum_windows os pm) = true.
Proof.
  intros os pm.
  destruct (enum_windows_from_cleared_state os pm eq_refl eq_refl)
    as (_ & Hreg & Hnd & _).
  split; [exact Hnd|]. apply Hreg. split.
  - apply elem_of_cons. right. apply elem_of_cons. by left.
  - split; [reflexivity|]. exists "a.exe"%string.
    split_and!; [reflexivity|by vm_compute|by vm_compute].
Defined.

(** ** What the constructor records *)

Lemma excludes_fold_lookup (k n title : string) : ∀ l ex,
  title ∈ default ∅
            (foldl (λ (ex : gmap string (gset string)) name,
                      <[k := {[name]} ∪ default ∅ (ex !! k)]> ex) ex l !! n)
  ↔ title ∈ default ∅ (ex !! n) ∨ (k = n ∧ title ∈ l).
Proof.
  induction l as [|a l IH]; intros ex; simpl.
  - split; [by left|]. intros [?|[_ Habs]]; [done|]. by apply elem_of_nil in Habs.
  - rewrite IH, lookup_insert, elem_of_cons.
    destruct (decide (k = n)) as [->|Hne]; simpl.
    + rewrite elem_of_union, elem_of_singleton. naive_solver.
    + naive_solver.
Qed.

Lemma add_excludes_lookup (w : WindowAttributes.t) ex (n title : string) :
  title ∈ default ∅ (add_excludes w ex !! n)
  ↔ title ∈ default ∅ (ex !! n)
    ∨ (WindowAttributes.process_name w = n
       ∧ title ∈ WindowAttributes.exclude_windows w).
Proof. apply excludes_fold_lookup. Qed.

Lemma init_excludes_lookup (n title : string) : ∀ was ex,
  title ∈ default ∅ (foldl (λ ex w, add_excludes w ex) ex was !! n)
  ↔ title ∈ default ∅ (ex !! n)
    ∨ ∃ w, w ∈ was ∧ WindowAttributes.process_name w = n
           ∧ title ∈ WindowAttributes.exclude_windows w.
Proof.
  induction was as [|w was IH]; intros ex; simpl.
  - split; [by left|]. intros [?|(w & Habs & _)]; [done|].
    by apply elem_of_nil in Habs.
  - rewrite IH, add_excludes_lookup. split.
    + intros [[?|[? ?]]|(w' & ? & ? & ?)].
      * by left.
      * right. exists w. split; [by left|done].
      * right. exists w'. split; [by right|done].
    + intros [?|(w' & [->|?]%elem_of_cons & ? & ?)].
      * left. by left.
      * left. by right.
      * right. by exists w'.
Qed.

Lemma init_dict_lookup (n : string) : ∀ was (d : gmap string WindowAttributes.t),
  foldl (λ d w, <[WindowAttributes.process_name w := w]> d) d was !! n
  = match last (filter (λ w, WindowAttributes.process_name w = n) was) with
    | Some w => Some w
    | None => d !! n
    end.
Proof.
  induction was as [|w was IH]; intros d; simpl; [done|].
  rewrite IH, filter_cons.
  destruct (decide (WindowAttributes.process_name w = n)) as [Hn|Hn].
  - destruct (filter _ was) as [|w' l] eqn:Hf; simpl.
    + by rewrite Hn, lookup_insert_eq.
    + destruct (last (w' :: l)) eqn:Hl; [done|]. by apply last_None in Hl.
  - destruct (last (filter _ was)); [done|]. by rewrite lookup_insert_ne.
Qed.

(** X3.  The constructor tracks exactly the process names of the
    configured entries.  When several entries name the same process, the
    attributes of the last one are used, while the excluded titles of all of
    them are put together; a title excluded for one process is not excluded
    for another. *)
Theorem init_tracks_names_last_entry_all_excludes
    (was : list WindowAttributes.t) (ug : bool) (g : list Cell.t) :
  (∀ n, n ∈ windows_attributes_name (PlacementManager.init was ug g)
        ↔ ∃ w, w ∈ was ∧ WindowAttributes.process_name w = n)
  ∧ (∀ n, windows_attributes_dict (PlacementManager.init was ug g) !! n
          = last (filter (λ w, WindowAttributes.process_name w = n) was))
  ∧ (∀ n title,
       (is_exclude_window n title (PlacementManager.init was ug g)).1 = true
       ↔ ∃ w, w ∈ was ∧ WindowAttributes.process_name w = n
              ∧ title ∈ WindowAttributes.exclude_windows w).
Proof.
  split_and!.
  - intros n. simpl. rewrite elem_of_list_to_set, list_elem_of_fmap.
    split; intros (w & ? & ?); exists w; done.
  - intros n. simpl. rewrite init_dict_lookup, lookup_empty.
    by destruct (last _).
  - intros n title.
    destruct (is_exclude_window_spec n title (PlacementManager.init was ug g))
      as (-> & _).
    rewrite bool_decide_eq_true. simpl. rewrite init_excludes_lookup.
    rewrite lookup_empty. simpl. split; [|by right].
    intros [Habs|?]; [|done]. by apply not_elem_of_empty in Habs.
Qed.

(** ** Binding and unbinding *)

Lemma alter_set_hwnd_same (g : list Cell.t) (cell : nat) (h : Z) :
  default 0 (Cell.hwnd <$> g !! cell) = h →
  alter (Cell.set_hwnd h) cell g = g.
Proof.
  intros Hh. apply list_eq. intros j. rewrite list_lookup_alter.
  destruct (decide (cell = j)) as [->|]; [|done].
  destruct (g !! j) as [[i x y h']|] eqn:E; [|done].
  simpl in *. by subst h'.
Qed.

(** X4.  Binding a handle that has no binding to an unowned cell and then
    unbinding the pair gives back the state; so does unbinding an existing
    binding and binding it again. *)
Theorem unlink_cell_undoes_link_cell (hwnd : Z) (cell : nat) (p : PlacementManager.t) :
  (hwnd_to_cels p !! hwnd = None → hwnd_at p cell = 0 →
   unlink_cell hwnd cell (link_cell hwnd cell p) = p)
  ∧ (hwnd_to_cels p !! hwnd = Some cell → hwnd_at p cell = hwnd →
     link_cell hwnd cell (unlink_cell hwnd cell p) = p).
Proof.
  split; intros Hb Hown.
  - unfold unlink_cell, link_cell, write_hwnd, with_hwnd_to_cels, with_grid.
    destruct p as [g ug names d calls mx m ex reg live]. simpl in *.
    rewrite list_alter_alter_eq, delete_insert_eq, delete_id by done.
    f_equal. rewrite (list_alter_ext _ (Cell.set_hwnd 0) _ g cell); [|done..].
    by apply alter_set_hwnd_same.
  - unfold unlink_cell, link_cell, write_hwnd, with_hwnd_to_cels, with_grid.
    destruct p as [g ug names d calls mx m ex reg live]. simpl in *.
    rewrite list_alter_alter_eq, insert_delete_eq, insert_id by done.
    f_equal. rewrite (list_alter_ext _ (Cell.set_hwnd hwnd) _ g cell); [|done..].
    by apply alter_set_hwnd_same.
Qed.

Lemma unlink_cell_undoes_link_cell_witness :
  let p := PlacementManager.init [] true [Cell.mk 1 0 0 0; Cell.mk 2 500 0 0] in
  unlink_cell 7 1 (link_cell 7 1 p) = p.
Proof.
  intros p.
  exact (proj1 (unlink_cell_undoes_link_cell 7 1 p) eq_refl eq_refl).
Defined.

(** X5.  [get_cell] asked twice gives the same answer and changes nothing
    the second time, and it never changes the dictionary entry of another
    handle: a binding, once made, is what every later call returns for that
    handle. *)
Theorem get_cell_stable (hwnd : Z) (p : PlacementManager.t) :
  get_cell hwnd (get_cell hwnd p).2 = get_cell hwnd p
  ∧ (∀ h, h ≠ hwnd →
       hwnd_to_cels (get_cell hwnd p).2 !! h = hwnd_to_cels p !! h)
  ∧ (∀ h cell, hwnd_to_cels p !! h = Some cell →
       ∀ hwnds, (get_cell h (foldl (λ p h', (get_cell h' p).2) p hwnds)).1
                = Some cell).
Proof.
  assert (∀ h' h q cell, hwnd_to_cels q !! h = Some cell →
            hwnd_to_cels (get_cell h' q).2 !! h = Some cell) as Hkeep.
  { intros h' h q cell Hb. unfold get_cell.
    destruct (hwnd_to_cels q !! h') as [c|] eqn:E; [done|].
    destruct (free_cell q) as [i|]; [|done]. simpl.
    rewrite lookup_insert_ne; [done|]. intros ->. congruence. }
  split_and!.
  - destruct (hwnd_to_cels p !! hwnd) as [c|] eqn:E.
    + assert (get_cell hwnd p = (Some c, p)) as Hg
        by (unfold get_cell; by rewrite E).
      rewrite Hg. exact Hg.
    + destruct (free_cell p) as [i|] eqn:Hf.
      * assert (get_cell hwnd p = (Some i, link_cell hwnd i p)) as Hg
          by (unfold get_cell; by rewrite E, Hf).
        rewrite Hg. unfold get_cell. simpl. by rewrite lookup_insert_eq.
      * assert (get_cell hwnd p = (None, p)) as Hg
          by (unfold get_cell; by rewrite E, Hf).
        rewrite Hg. exact Hg.
  - intros h Hne. unfold get_cell.
    destruct (hwnd_to_cels p !! hwnd) as [c|]; [done|].
    destruct (free_cell p) as [i|]; [|done]. simpl.
    by rewrite lookup_insert_ne.
  - intros h cell Hb hwnds. revert p Hb.
    induction hwnds as [|h' hwnds IH]; intros p Hb; simpl.
    + unfold get_cell. by rewrite Hb.
    + apply IH. by apply Hkeep.
Qed.

Lemma get_cell_stable_witness :
  let p := (get_cell 7 (with_all_hwnd {[7; 8; 9]}
              (PlacementManager.init [] true
                 [Cell.mk 1 0 0 0; Cell.mk 2 500 0 0]))).2 in
  (get_cell 7 (foldl (λ p h', (get_cell h' p).2) p [8; 9; 7])).1 = Some 0%nat.
Proof.
  intros p.
  exact (proj2 (proj2 (get_cell_stable 7 p)) 7 0%nat eq_refl [8; 9; 7]).
Defined.

(** ** The drag release: [processing_window_change_pos] *)



(** ** One pass over a window, in detail *)

Lemma get_cell_shape hwnd p :
  ∃ g m,
    (get_cell hwnd p).2 = with_hwnd_to_cels m (with_grid g p)
    ∧ length g = length (grid p)
    ∧ (∀ cell, default 0 (Cell.x <$> g !! cell) = x_at p cell
               ∧ default 0 (Cell.y <$> g !! cell) = y_at p cell)
    ∧ ((get_cell hwnd p).1 = m !! hwnd).
Proof.
  unfold get_cell.
  destruct (hwnd_to_cels p !! hwnd) as [c|] eqn:E; simpl.
  - exists (grid p), (hwnd_to_cels p). split_and!; try done. by destruct p.
  - destruct (free_cell p) as [i|]; simpl.
    + eexists _, _. split_and!; [reflexivity|apply length_alter| |].
      * intros cell.
        pose proof (x_at_write_hwnd p i cell hwnd) as Hx.
        pose proof (y_at_write_hwnd p i cell hwnd) as Hy.
        unfold x_at, y_at in *. simpl in *. by rewrite Hx, Hy.
      * by rewrite lookup_insert_eq.
    + exists (grid p), (hwnd_to_cels p). split_and!; try done. by destruct p.
Qed.

Lemma move_to_cell_shape hwnd dest p :
  ∃ g m,
    move_to_cell hwnd dest p = with_hwnd_to_cels m (with_grid g p)
    ∧ length g = length (grid p).
Proof.
  assert (∀ q, q = with_hwnd_to_cels (hwnd_to_cels q) (with_grid (grid q) q))
    as Hid by (by intros []).
  assert (∀ h c q, ∃ g m, link_cell h c q = with_hwnd_to_cels m (with_grid g q)
                          ∧ length g = length (grid q)) as Hlink.
  { intros h c q. eexists _, _. split; [reflexivity|apply length_alter]. }
  assert (∀ c h q, ∃ g m, write_hwnd c h q = with_hwnd_to_cels m (with_grid g q)
                          ∧ length g = length (grid q)) as Hwrite.
  { intros c h q. exists (alter (Cell.set_hwnd h) c (grid q)), (hwnd_to_cels q).
    split; [by destruct q|apply length_alter]. }
  assert (∀ q1 q2 q3 : PlacementManager.t,
            (∃ g m, q2 = with_hwnd_to_cels m (with_grid g q1)
                    ∧ length g = length (grid q1)) →
            (∃ g m, q3 = with_hwnd_to_cels m (with_grid g q2)
                    ∧ length g = length (grid q2)) →
            ∃ g m, q3 = with_hwnd_to_cels m (with_grid g q1)
                   ∧ length g = length (grid q1)) as Htrans.
  { intros q1 q2 q3 (g & m & -> & Hl) (g' & m' & -> & Hl').
    exists g', m'. split; [done|]. simpl in Hl'. congruence. }
  assert (∃ g m, (get_cell hwnd p).2 = with_hwnd_to_cels m (with_grid g p)
                 ∧ length g = length (grid p)) as Hget.
  { destruct (get_cell_shape hwnd p) as (g & m & ? & ? & _). by exists g, m. }
  unfold move_to_cell.
  destruct (decide (hwnd_at p dest = hwnd)).
  { exists (grid p), (hwnd_to_cels p). split; [apply Hid|done]. }
  destruct (get_cell hwnd p) as [[curr|] p1]; simpl in Hget.
  - destruct (decide (_ ∧ _)); [done|].
    destruct (decide (hwnd_at (write_hwnd curr 0 p1) dest = 0)).
    + eapply Htrans; [exact Hget|]. eapply Htrans; [apply Hwrite|apply Hlink].
    + eapply Htrans; [exact Hget|]. eapply Htrans; [apply Hwrite|].
      eapply Htrans; [apply Hlink|apply Hlink].
  - destruct (decide (hwnd_at p1 dest = 0)); [|done].
    eapply Htrans; [exact Hget|apply Hlink].
Qed.

Lemma grid_target_spec l t wa hwnd pm :
  ∃ g m,
    (grid_target l t wa hwnd pm).2 = with_hwnd_to_cels m (with_grid g pm)
    ∧ length g = length (grid pm)
    ∧ (grid_target l t wa hwnd pm).1
      = match (if using_grid pm then m !! hwnd else None) with
        | Some cell =>
            (x_at pm cell, y_at pm cell, bool_decide (l = x_at pm cell),
             bool_decide (t = y_at pm cell), SWP_SHOWWINDOW)
        | None =>
            (WindowAttributes.x wa, WindowAttributes.y wa, true, true, SWP_NOMOVE)
        end.
Proof.
  unfold grid_target. destruct (using_grid pm) eqn:Hug.
  - destruct (get_cell_shape hwnd pm) as (g & m & Hst & Hlen & Hxy & Hres).
    destruct (get_cell hwnd pm) as [[cell|] q]; simpl in *.
    + exists g, m. split_and!; [done..|]. rewrite <- Hres. subst q.
      unfold x_at, y_at. simpl. destruct (Hxy cell) as [-> ->]. done.
    + exists g, m. split_and!; [done..|]. by rewrite <- Hres.
  - exists (grid pm), (hwnd_to_cels pm). split_and!; try done. by destruct pm.
Qed.

Lemma guarded_call_detail hwnd wa pm :
  ∃ calls,
    guarded_call hwnd wa pm
    = Ok (with_set_pos_calls calls pm,
          if bool_decide (counter pm hwnd < set_pos_max_count pm)
          then [(GuardedCall,
                 mkSetWindowPos hwnd HWND_NOTOPMOST
                   (WindowAttributes.x wa) (WindowAttributes.y wa)
                   (WindowAttributes.width wa) (WindowAttributes.height wa)
                   (if WindowAttributes.use_coordinates wa && negb (using_grid pm)
                    then SWP_SHOWWINDOW else SWP_NOMOVE))]
          else [])
    ∧ default 0 (calls !! hwnd)
      = (if bool_decide (counter pm hwnd < set_pos_max_count pm)
         then counter pm hwnd + 1 else counter pm hwnd)
    ∧ (∀ h', h' ≠ hwnd → calls !! h' = set_pos_calls pm !! h').
Proof.
  unfold guarded_call, need_set_pos_call, increase_set_pos_call_count, counter.
  destruct (set_pos_calls pm !! hwnd) as [n|] eqn:E; simpl.
  - destruct (bool_decide (n < set_pos_max_count pm)); simpl.
    + rewrite E. simpl. eexists. split; [reflexivity|].
      rewrite lookup_insert_eq. split; [done|].
      intros h' Hne. by rewrite lookup_insert_ne.
    + exists (set_pos_calls pm). split_and!; [by destruct pm|by rewrite E|done].
  - destruct (bool_decide (0 < set_pos_max_count pm)); simpl.
    + rewrite lookup_insert_eq. simpl. eexists. split; [reflexivity|].
      rewrite lookup_insert_eq. split; [done|].
      intros h' Hne. by rewrite !lookup_insert_ne.
    + eexists. split; [reflexivity|].
      rewrite lookup_insert_eq. split; [done|].
      intros h' Hne. by rewrite lookup_insert_ne.
Qed.

Lemma measure_position rect wa :
  WindowAttributes.x (measure rect wa).2 = WindowAttributes.x wa
  ∧ WindowAttributes.y (measure rect wa).2 = WindowAttributes.y wa.
Proof.
  unfold measure.
  by destruct (bool_decide (RECT.right rect - RECT.left rect = _)),
       (bool_decide (RECT.bottom rect - RECT.top rect = _)).
Qed.

Lemma process_window_detail os hwnd proc_name pm wa :
  windows_attributes_dict pm !! proc_name = Some wa →
  ∃ calls g m wa',
    (measure (DwmGetWindowAttribute os hwnd) wa).2 = wa'
    ∧ default 0 (calls !! hwnd)
      = (if bool_decide (counter pm hwnd < set_pos_max_count pm)
         then counter pm hwnd + 1 else counter pm hwnd)
    ∧ (∀ h', h' ≠ hwnd → calls !! h' = set_pos_calls pm !! h')
    ∧ length g = length (grid pm)
    ∧ (GetWindowRect os hwnd = None ∨ using_grid pm = false →
       g = grid pm ∧ m = hwnd_to_cels pm)
    ∧ process_window os hwnd proc_name pm
      = Ok (with_hwnd_to_cels m (with_grid g
              (with_windows_attributes_dict
                 (<[proc_name := wa']> (windows_attributes_dict pm))
                 (with_set_pos_calls calls pm))),
            (if bool_decide (counter pm hwnd < set_pos_max_count pm)
             then [(GuardedCall,
                    mkSetWindowPos hwnd HWND_NOTOPMOST
                      (WindowAttributes.x wa) (WindowAttributes.y wa)
                      (WindowAttributes.width wa) (WindowAttributes.height wa)
                      (if WindowAttributes.use_coordinates wa
                          && negb (using_grid pm)
                       then SWP_SHOWWINDOW else SWP_NOMOVE))]
             else [])
            ++
            match GetWindowRect os hwnd with
            | None => []
            | Some r =>
                let '(l, t, cl, ct, mv) :=
                  match (if using_grid pm then m !! hwnd else None) with
                  | Some cell =>
                      (x_at pm cell, y_at pm cell,
                       bool_decide (RECT.left r = x_at pm cell),
                       bool_decide (RECT.top r = y_at pm cell), SWP_SHOWWINDOW)
                  | None =>
                      (WindowAttributes.x wa, WindowAttributes.y wa,
                       true, true, SWP_NOMOVE)
                  end in
                if negb (bool_decide
                           (RECT.right (DwmGetWindowAttribute os hwnd)
                            - RECT.left (DwmGetWindowAttribute os hwnd)
                            = WindowAttributes.width wa))
                   || negb (bool_decide
                              (RECT.bottom (DwmGetWindowAttribute os hwnd)
                               - RECT.top (DwmGetWindowAttribute os hwnd)
                               = WindowAttributes.height wa))
                   || negb cl || negb ct
                then [(CorrectiveCall,
                       mkSetWindowPos hwnd HWND_NOTOPMOST l t
                         (WindowAttributes.width wa
                          + WindowAttributes.additional_width wa')
                         (WindowAttributes.height wa
                          + WindowAttributes.additional_height wa') mv)]
                else []
            end).
Proof.
  intros Hwa. unfold process_window. rewrite Hwa.
  destruct (guarded_call_detail hwnd wa pm) as (calls & -> & Hcnt & Hoth).
  cbn [mbind result_bind].
  destruct (measure_position (DwmGetWindowAttribute os hwnd) wa) as [Hpx Hpy].
  destruct (measure_spec (DwmGetWindowAttribute os hwnd) wa)
    as (wa' & Hmeq & Hw & Hh & _).
  rewrite Hmeq in Hpx, Hpy. rewrite Hmeq. simpl in Hpx, Hpy.
  destruct (GetWindowRect os hwnd) as [r|] eqn:Hr.
  - match goal with |- context [grid_target ?a ?b ?c ?d ?q] =>
      destruct (grid_target_spec a b c d q) as (g & m & Hst & Hlen & Hres);
      pose proof (grid_target_frame a b c d q) as _;
      destruct (grid_target a b c d q) as [[[[[l t] cl] ct] mv] q'] eqn:Hgt end.
    simpl in Hst, Hres, Hlen. subst q'.
    exists calls, g, m, wa'. split_and!; try done.
    + intros [?|Hug]; [done|].
      unfold grid_target in Hgt. simpl in Hgt. rewrite Hug in Hgt.
      injection Hgt as _ _ _ _ _ Hq1 Hq2. by split.
    + assert (x_at (with_windows_attributes_dict
                      (<[proc_name:=wa']> (windows_attributes_dict pm))
                      (with_set_pos_calls calls pm)) = x_at pm) as Hx by done.
      assert (y_at (with_windows_attributes_dict
                      (<[proc_name:=wa']> (windows_attributes_dict pm))
                      (with_set_pos_calls calls pm)) = y_at pm) as Hy by done.
      rewrite Hx, Hy, Hpx, Hpy in Hres. rewrite <- Hres. simpl.
      rewrite Hw, Hh.
      destruct (negb _ || negb _ || negb cl || negb ct); [done|].
      by rewrite app_nil_r.
  - exists calls, (grid pm), (hwnd_to_cels pm), wa'.
    rewrite app_nil_r. split_and!; try done.
Qed.

(** X7.  One pass over a window issues the corrective call at most once,
    and exactly when the window still exists and its measured width or
    height differs from the target or, with the grid on, it is bound to a
    cell and its top-left corner is not at that cell.  With the grid off the
    position plays no part. *)
Theorem corrective_call_exactly_when_needed
    (os : OS) (hwnd : Z) (proc_name : string) (pm : PlacementManager.t)
    (wa : WindowAttributes.t) :
  windows_attributes_dict pm !! proc_name = Some wa →
  ∃ pm' log,
    process_window os hwnd proc_name pm = Ok (pm', log)
    ∧ (length (calls_at CorrectiveCall hwnd log) ≤ 1)%nat
    ∧ (calls_at CorrectiveCall hwnd log ≠ []
       ↔ ∃ r, GetWindowRect os hwnd = Some r
              ∧ (RECT.right (DwmGetWindowAttribute os hwnd)
                 - RECT.left (DwmGetWindowAttribute os hwnd)
                 ≠ WindowAttributes.width wa
                 ∨ RECT.bottom (DwmGetWindowAttribute os hwnd)
                   - RECT.top (DwmGetWindowAttribute os hwnd)
                   ≠ WindowAttributes.height wa
                 ∨ (using_grid pm = true
                    ∧ ∃ cell, hwnd_to_cels pm' !! hwnd = Some cell
                              ∧ (RECT.left r ≠ x_at pm cell
                                 ∨ RECT.top r ≠ y_at pm cell)))).
Proof.
  intros Hwa.
  destruct (process_window_detail os hwnd proc_name pm wa Hwa)
    as (calls & g & m & wa' & _ & _ & _ & _ & _ & Hrun).
  eexists _, _. split; [exact Hrun|]. cbn [hwnd_to_cels with_hwnd_to_cels].
  unfold calls_at. rewrite filter_app.
  match goal with |- context [filter ?P (if ?b then [?e] else [])] =>
    assert (filter P (if b then [e] else []) = []) as ->
      by (by destruct b) end.
  rewrite app_nil_l.
  destruct (GetWindowRect os hwnd) as [r|]; [|split; [simpl; lia|]; split;
    [done|by intros (r & ? & _)]].
  destruct (bool_decide_reflect
              (RECT.right (DwmGetWindowAttribute os hwnd)
               - RECT.left (DwmGetWindowAttribute os hwnd)
               = WindowAttributes.width wa)) as [Hw|Hw];
    destruct (bool_decide_reflect
                (RECT.bottom (DwmGetWindowAttribute os hwnd)
                 - RECT.top (DwmGetWindowAttribute os hwnd)
                 = WindowAttributes.height wa)) as [Hh|Hh];
    destruct (using_grid pm) eqn:Hug;
    try destruct (m !! hwnd) as [cell|] eqn:Hm;
    try destruct (bool_decide_reflect (RECT.left r = x_at pm cell)) as [Hl|Hl];
    try destruct (bool_decide_reflect (RECT.top r = y_at pm cell)) as [Ht|Ht];
    cbn [negb orb filter list_filter];
    rewrite ?filter_cons, ?filter_nil; cbn [fst snd swp_hwnd];
    rewrite ?decide_True by done; clear Hrun;
    (split; [simpl; lia|]); split.
  all: lazymatch goal with
       | |- [] ≠ [] → _ => intros Hne; by destruct Hne
       | |- _ → [_] ≠ [] => intros _; discriminate
       | |- [_] ≠ [] → _ =>
           intros _; exists r; split; [reflexivity|];
           first [ left; assumption
                 | right; left; assumption
                 | right; right; split; [reflexivity|];
                   exists cell; split; [reflexivity|];
                   first [left; assumption | right; assumption] ]
       | |- _ → [] ≠ [] =>
           intros (r0 & [= <-] & Hc); exfalso;
           destruct Hc as [?|[?|(? & c0 & ? & Hc)]]; try congruence;
           (assert (c0 = cell) as -> by congruence); destruct Hc; congruence
       end.
Qed.

Lemma corrective_call_exactly_when_needed_witness :
  ∃ pm' log,
    process_window scenario_os 42 "a.exe"
      (enum_windows scenario_os (placement_manager scenario_start))
    = Ok (pm', log)
    ∧ calls_at CorrectiveCall 42 log ≠ [].
Proof.
  destruct (corrective_call_exactly_when_needed scenario_os 42 "a.exe"%string
              (enum_windows scenario_os (placement_manager scenario_start))
              scenario_spec)
    as (pm' & log & Hrun & _ & Hiff).
  - by vm_compute.
  - exists pm', log. split; [exact Hrun|]. apply Hiff.
    exists (RECT.mk 100 100 900 700). split; [reflexivity|].
    left. by vm_compute.
Defined.

(** X8.  Every call of a pass goes to the window of the pass, never makes
    it topmost, and asks for a move only in two cases: the guarded call when
    the grid is off and the process uses coordinates, to the configured
    position; the corrective call when the grid is on and the window is
    bound to a cell, to that cell.  Every other call is size-only. *)
Theorem calls_that_move_a_window
    (os : OS) (hwnd : Z) (proc_name : string) (pm : PlacementManager.t)
    (wa : WindowAttributes.t) :
  windows_attributes_dict pm !! proc_name = Some wa →
  ∃ pm' log,
    process_window os hwnd proc_name pm = Ok (pm', log)
    ∧ ∀ site c, (site, c) ∈ log →
        swp_hwnd c = hwnd
        ∧ swp_insert_after c = HWND_NOTOPMOST
        ∧ (swp_flags c = SWP_NOMOVE
           ∨ (swp_flags c = SWP_SHOWWINDOW
              ∧ ((site = GuardedCall
                  ∧ WindowAttributes.use_coordinates wa = true
                  ∧ using_grid pm = false
                  ∧ swp_x c = WindowAttributes.x wa
                  ∧ swp_y c = WindowAttributes.y wa)
                 ∨ (site = CorrectiveCall
                    ∧ using_grid pm = true
                    ∧ ∃ cell, hwnd_to_cels pm' !! hwnd = Some cell
                              ∧ swp_x c = x_at pm cell
                              ∧ swp_y c = y_at pm cell)))).
Proof.
  intros Hwa.
  destruct (process_window_detail os hwnd proc_name pm wa Hwa)
    as (calls & g & m & wa' & _ & _ & _ & _ & _ & Hrun).
  eexists _, _. split; [exact Hrun|]. clear Hrun.
  cbn [hwnd_to_cels with_hwnd_to_cels].
  intros site c [Hin|Hin]%elem_of_app.
  - destruct (bool_decide (counter pm hwnd < set_pos_max_count pm));
      [|by apply elem_of_nil in Hin].
    apply list_elem_of_singleton in Hin. injection Hin as -> ->. simpl.
    split_and!; [done..|].
    destruct (WindowAttributes.use_coordinates wa), (using_grid pm); simpl;
      [by left|right|by left|by left].
    split; [done|]. by left.
  - destruct (GetWindowRect os hwnd) as [r|]; [|by apply elem_of_nil in Hin].
    destruct (using_grid pm) eqn:Hug; [destruct (m !! hwnd) as [cell|] eqn:Hm|];
      cbn beta iota zeta in Hin.
    + destruct (negb _ || negb _ || negb _ || negb _);
        [|by apply elem_of_nil in Hin].
      apply list_elem_of_singleton in Hin. injection Hin as -> ->. simpl.
      split_and!; [done..|]. right. split; [done|]. right.
      split_and!; [done..|]. by exists cell.
    + destruct (negb _ || negb _ || negb _ || negb _);
        [|by apply elem_of_nil in Hin].
      apply list_elem_of_singleton in Hin. injection Hin as -> ->. simpl.
      split_and!; [done..|]. by left.
    + destruct (negb _ || negb _ || negb _ || negb _);
        [|by apply elem_of_nil in Hin].
      apply list_elem_of_singleton in Hin. injection Hin as -> ->. simpl.
      split_and!; [done..|]. by left.
Qed.

Lemma calls_that_move_a_window_witness :
  ∃ pm' log,
    process_window scenario_os 42 "a.exe"
      (enum_windows scenario_os (placement_manager scenario_start))
    = Ok (pm', log)
    ∧ ∀ site c, (site, c) ∈ log →
        swp_hwnd c = 42 ∧ swp_insert_after c = HWND_NOTOPMOST.
Proof.
  destruct (calls_that_move_a_window scenario_os 42 "a.exe"%string
              (enum_windows scenario_os (placement_manager scenario_start))
              scenario_spec)
    as (pm' & log & Hrun & Hall).
  - by vm_compute.
  - exists pm', log. split; [exact Hrun|].
    intros site c Hin. destruct (Hall site c Hin) as (? & ? & _). by split.
Defined.

(** ** A tick, whatever the gesture *)

Lemma process_window_log os hwnd proc_name pm pm' log :
  process_window os hwnd proc_name pm = Ok (pm', log) →
  length (grid pm') = length (grid pm)
  ∧ ∀ e, e ∈ log → swp_hwnd e.2 = hwnd ∧ swp_insert_after e.2 = HWND_NOTOPMOST.
Proof.
  intros Hrun.
  destruct (windows_attributes_dict pm !! proc_name) as [wa|] eqn:Hwa;
    [|unfold process_window in Hrun; by rewrite Hwa in Hrun].
  destruct (process_window_detail os hwnd proc_name pm wa Hwa)
    as (calls & g & m & wa' & _ & _ & _ & Hlen & _ & Hrun').
  rewrite Hrun in Hrun'. injection Hrun' as -> ->. split; [done|].
  intros e [Hin|Hin]%elem_of_app.
  - destruct (bool_decide _); [|by apply elem_of_nil in Hin].
    apply list_elem_of_singleton in Hin. by subst e.
  - destruct (GetWindowRect os hwnd) as [r|]; [|by apply elem_of_nil in Hin].
    destruct (if using_grid pm then m !! hwnd else None) as [cell|];
      cbn beta iota zeta in Hin;
      (destruct (negb _ || negb _ || negb _ || negb _);
       [|by apply elem_of_nil in Hin]);
      apply list_elem_of_singleton in Hin; by subst e.
Qed.

Lemma process_windows_log os : ∀ l pm pm' log,
  process_windows os l pm = Ok (pm', log) →
  length (grid pm') = length (grid pm)
  ∧ ∀ e, e ∈ log → swp_hwnd e.2 ∈ l.*1 ∧ swp_insert_after e.2 = HWND_NOTOPMOST.
Proof.
  induction l as [|[hwnd n] l IH]; intros pm pm' log; cbn [process_windows].
  - intros [= <- <-]. split; [done|]. intros e Hin. by apply elem_of_nil in Hin.
  - intros ([pm1 log1] & H1 & H2)%bind_Ok.
    apply bind_Ok in H2 as ([pm2 log2] & H2 & [= <- <-]).
    destruct (process_window_log _ _ _ _ _ _ H1) as [Hlen1 Hlog1].
    destruct (IH _ _ _ H2) as [Hlen2 Hlog2].
    split; [congruence|]. rewrite fmap_cons. cbn [fst].
    intros e [Hin|Hin]%elem_of_app.
    + destruct (Hlog1 e Hin) as [-> ?]. split; [by left|done].
    + destruct (Hlog2 e Hin) as [? ?]. split; [by right|done].
Qed.

Lemma winEnumHandler_dict os hwnd pm :
  windows_attributes_dict (winEnumHandler os hwnd pm) = windows_attributes_dict pm.
Proof.
  unfold winEnumHandler.
  destruct (IsWindowVisible (window os hwnd)); [|done].
  destruct (process_image (window os hwnd)) as [name|]; [|done].
  destruct (bool_decide _); [|done].
  unfold is_exclude_window. simpl exclude_window_names.
  destruct (exclude_window_names pm !! name) as [s|]; simpl; [|done].
  by destruct (bool_decide _).
Qed.

Lemma enum_windows_dict os pm :
  windows_attributes_dict (enum_windows os pm) = windows_attributes_dict pm.
Proof.
  unfold enum_windows. generalize (EnumWindows os). intros l. revert pm.
  induction l as [|h l IH]; intros pm; simpl; [done|].
  by rewrite IH, winEnumHandler_dict.
Qed.

Lemma tracked_have_attributes_config p p' :
  tracked_have_attributes p → config_preserved p p' →
  tracked_have_attributes p'.
Proof.
  intros Htr (_ & Hn & _ & _ & Hd) n Hin. rewrite Hn in Hin.
  destruct (Htr n Hin) as [wa Hwa]. destruct (Hd n wa Hwa) as (wa' & -> & _).
  by eexists.
Qed.

Lemma config_preserved_reset p : config_preserved p (reset p).
Proof. split_and!; try done. intros n wa H. by exists wa. Qed.

Lemma config_preserved_rebound p g m :
  config_preserved p (with_hwnd_to_cels m (with_grid g p)).
Proof. split_and!; try done. intros n wa H. by exists wa. Qed.

Lemma processing_window_change_pos_raise os pm e :
  processing_window_change_pos os pm = Raise e →
  e = IndexError ∧ grid pm = [] ∧ using_grid pm = true.
Proof.
  unfold processing_window_change_pos.
  destruct (is_registered_hwnd _ pm); destruct (using_grid pm); simpl; try done.
  destruct (GetWindowRect os _); simpl; [|done].
  unfold search_nearest_cell. destruct (grid pm); simpl; [|done].
  by intros [= <-].
Qed.

Lemma resize_window_tick_spec os st :
  loop_wf st →
  match resize_window_tick os st with
  | Ok (st', log) =>
      loop_wf st'
      ∧ config_preserved (placement_manager st) (placement_manager st')
      ∧ length (grid (placement_manager st'))
        = length (grid (placement_manager st))
      ∧ prev_is_hold st'
        = (MouseTracker.is_left_mouse_button_hold
             (left_button_down os) (time os) (mouse_tracker st)).1
      ∧ (∀ h, Z.of_nat (length (calls_at GuardedCall h log))
              = counter (placement_manager st') h
                - counter (placement_manager st) h)
      ∧ (∀ h, counter (placement_manager st') h
              ≤ Z.max (counter (placement_manager st) h)
                      (set_pos_max_count (placement_manager st)))
      ∧ (∀ e, e ∈ log →
           swp_hwnd e.2 ∈ EnumWindows os
           ∧ eligible os (placement_manager st) (swp_hwnd e.2)
           ∧ swp_insert_after e.2 = HWND_NOTOPMOST)
      ∧ (prev_is_hold st = true ∨ prev_is_hold st' = true →
         log = []
         ∧ set_pos_calls (placement_manager st')
           = set_pos_calls (placement_manager st)
         ∧ windows_attributes_dict (placement_manager st')
           = windows_attributes_dict (placement_manager st))
      ∧ (prev_is_hold st' = true →
         grid (placement_manager st') = grid (placement_manager st)
         ∧ hwnd_to_cels (placement_manager st')
           = hwnd_to_cels (placement_manager st))
  | Raise e =>
      e = IndexError ∧ grid (placement_manager st) = []
      ∧ using_grid (placement_manager st) = true ∧ prev_is_hold st = true
      ∧ (MouseTracker.is_left_mouse_button_hold
           (left_button_down os) (time os) (mouse_tracker st)).1 = false
  end.
Proof.
  intros [Hreg0 Htr]. unfold resize_window_tick.
  set (pm := placement_manager st) in *.
  destruct (enum_windows_registry os (EnumWindows os) pm)
    as (Hc1 & Hcfg1 & Hnd1 & Hreg1).
  destruct (enum_windows_frame os (EnumWindows os) pm) as (Hg1 & Hm1 & _ & Hkeys).
  pose proof (enum_windows_dict os pm) as Hd1.
  fold (enum_windows os pm) in Hc1, Hcfg1, Hnd1, Hreg1, Hkeys, Hg1, Hm1.
  set (pm1 := enum_windows os pm) in *.
  destruct (MouseTracker.is_left_mouse_button_hold _ _ _) as [is_hold mt].
  cbn [fst].
  assert (∀ h, h ∈ (hwnd_to_name pm1).*1 → h ∈ EnumWindows os ∧ eligible os pm h)
    as Hkeys'.
  { intros h Hin. apply Hkeys in Hin as [Habs|?]; [|done].
    rewrite Hreg0 in Habs. by apply elem_of_nil in Habs. }
  assert (∀ q, config_preserved pm1 q → config_preserved pm (reset q)) as Hcfg.
  { intros q Hq. eapply config_preserved_trans; [exact Hcfg1|].
    eapply config_preserved_trans; [exact Hq|]. apply config_preserved_reset. }
  assert (∀ q, config_preserved pm1 q → loop_wf (mkLoop (reset q) mt is_hold))
    as Hwf.
  { intros q Hq. split; [done|].
    eapply tracked_have_attributes_config; [exact Htr|]. by apply Hcfg. }
  assert (∀ h : Z, Z.of_nat (length (calls_at GuardedCall h [])) = 0) as Hnil
    by done.
  destruct (prev_is_hold st) eqn:Hprev; destruct is_hold; cbn [negb andb].
  - (* held before, held now *)
    cbn [mbind result_bind]. cbn [placement_manager prev_is_hold].
    split_and!.
    + apply Hwf, config_preserved_refl.
    + apply Hcfg, config_preserved_refl.
    + simpl. by rewrite Hg1.
    + done.
    + intros h. unfold counter. simpl. rewrite Hc1. simpl. lia.
    + intros h. unfold counter. simpl. rewrite Hc1. lia.
    + intros e Hin. by apply elem_of_nil in Hin.
    + intros _. simpl. by rewrite Hc1, Hd1.
    + intros _. simpl. by rewrite Hg1, Hm1.
  - (* the release *)
    cbn [mbind result_bind].
    pose proof (processing_window_change_pos_raise os pm1) as Hraise.
    destruct (processing_window_change_pos os pm1) as [pm2|e] eqn:Hcp;
      cbn [mbind result_bind].
    + cbn [placement_manager prev_is_hold].
      assert (∃ g m, pm2 = with_hwnd_to_cels m (with_grid g pm1)
                     ∧ length g = length (grid pm1)) as (g & m & -> & Hlen).
      { assert (∀ q, q = with_hwnd_to_cels (hwnd_to_cels q) (with_grid (grid q) q))
          as Hid by (by intros []).
        unfold processing_window_change_pos in Hcp.
        destruct (negb _ || negb _).
        { injection Hcp as <-. exists (grid pm1), (hwnd_to_cels pm1).
          split; [apply Hid|done]. }
        destruct (GetWindowRect os (WindowFromPoint os)).
        - apply bind_Ok in Hcp as (cell & _ & [= <-]). apply move_to_cell_shape.
        - injection Hcp as <-. exists (grid pm1), (hwnd_to_cels pm1).
          split; [apply Hid|done]. }
      split_and!.
      * apply Hwf, config_preserved_rebound.
      * apply Hcfg, config_preserved_rebound.
      * simpl. by rewrite Hlen, Hg1.
      * done.
      * intros h. unfold counter. simpl. rewrite Hc1. simpl. lia.
      * intros h. unfold counter. simpl. rewrite Hc1. lia.
      * intros e Hin. by apply elem_of_nil in Hin.
      * intros _. simpl. by rewrite Hc1, Hd1.
      * by intros ?.
    + destruct (Hraise e eq_refl) as (-> & Hg & Hug).
      split_and!; [done|by rewrite <- Hg1| |done|done].
      by destruct Hcfg1 as (<- & _).
  - (* a hold begins *)
    cbn [mbind result_bind]. cbn [placement_manager prev_is_hold].
    split_and!.
    + apply Hwf, config_preserved_refl.
    + apply Hcfg, config_preserved_refl.
    + simpl. by rewrite Hg1.
    + done.
    + intros h. unfold counter. simpl. rewrite Hc1. simpl. lia.
    + intros h. unfold counter. simpl. rewrite Hc1. lia.
    + intros e Hin. by apply elem_of_nil in Hin.
    + intros _. simpl. by rewrite Hc1, Hd1.
    + intros _. simpl. by rewrite Hg1, Hm1.
  - (* no gesture: the enforcement pass *)
    destruct (process_windows_spec os (hwnd_to_name pm1) pm1)
      as (pm2 & log & Hrun & Hcfg2 & Hreg2 & Hcnt & Hgc & _).
    { apply Hnd1. rewrite Hreg0. constructor. }
    { intros h n Hin. destruct (Hreg1 h n Hin) as [Habs|[Hn _]].
      - rewrite Hreg0 in Habs. by apply elem_of_nil in Habs.
      - destruct (Htr n Hn) as [wa Hwa].
        destruct Hcfg1 as (_ & _ & _ & _ & Hd).
        destruct (Hd n wa Hwa) as (wa1 & -> & _). by eexists. }
    destruct (process_windows_log os _ _ _ _ Hrun) as [Hlen2 Hlog2].
    unfold processing_detected_windows, registered_processes_iter.
    rewrite Hrun. cbn [mbind result_bind]. cbn [placement_manager prev_is_hold].
    assert (set_pos_max_count pm1 = set_pos_max_count pm) as Hmax
      by (by destruct Hcfg1 as (_ & _ & ? & _)).
    assert (∀ h, counter pm1 h = counter pm h) as Hc1'
      by (intros h; unfold counter; by rewrite Hc1).
    split_and!.
    + by apply Hwf.
    + by apply Hcfg.
    + simpl. by rewrite Hlen2, Hg1.
    + done.
    + intros h. change (counter (reset pm2) h) with (counter pm2 h).
      rewrite Hgc, Hcnt, Hc1', Hmax.
      destruct (decide (h ∈ (hwnd_to_name pm1).*1)); [|simpl; lia].
      destruct (bool_decide _); simpl; lia.
    + intros h. change (counter (reset pm2) h) with (counter pm2 h).
      rewrite Hcnt, Hc1', Hmax.
      destruct (decide (h ∈ (hwnd_to_name pm1).*1)); [|lia].
      destruct (bool_decide_reflect (counter pm h < set_pos_max_count pm)); lia.
    + intros e Hin. destruct (Hlog2 e Hin) as [Hk ?].
      destruct (Hkeys' _ Hk). done.
    + by intros [?|?].
    + by intros ?.
Qed.

Lemma loop_wf_init was ug g mt prev :
  loop_wf (mkLoop (PlacementManager.init was ug g) mt prev).
Proof. split; [done|]. apply init_tracked_have_attributes. Qed.

Lemma resize_window_spec : ∀ ticks st,
  loop_wf st →
  match resize_window ticks st with
  | Ok (st', logs) =>
      loop_wf st'
      ∧ length logs = length ticks
      ∧ config_preserved (placement_manager st) (placement_manager st')
      ∧ length (grid (placement_manager st'))
        = length (grid (placement_manager st))
      ∧ (∀ h, Z.of_nat (length (calls_at GuardedCall h (concat logs)))
              = counter (placement_manager st') h
                - counter (placement_manager st) h)
      ∧ (∀ h, counter (placement_manager st') h
              ≤ Z.max (counter (placement_manager st) h)
                      (set_pos_max_count (placement_manager st)))
      ∧ (∀ k os log e, ticks !! k = Some os → logs !! k = Some log → e ∈ log →
           swp_hwnd e.2 ∈ EnumWindows os
           ∧ eligible os (placement_manager st) (swp_hwnd e.2)
           ∧ swp_insert_after e.2 = HWND_NOTOPMOST)
  | Raise e =>
      e = IndexError ∧ grid (placement_manager st) = []
      ∧ using_grid (placement_manager st) = true
  end.
Proof.
  induction ticks as [|os ticks IH]; intros st Hwf; cbn [resize_window].
  - split_and!.
    + done.
    + done.
    + apply config_preserved_refl.
    + done.
    + intros h. simpl. lia.
    + intros h. lia.
    + intros k os log e Hk. by rewrite lookup_nil in Hk.
  - pose proof (resize_window_tick_spec os st Hwf) as Htick.
    destruct (resize_window_tick os st) as [[st1 log]|e]; cbn [mbind result_bind].
    + destruct Htick as (Hwf1 & Hcfg1 & Hlen1 & _ & Hg1 & Hb1 & He1 & _).
      specialize (IH st1 Hwf1).
      destruct (resize_window ticks st1) as [[st2 logs]|e];
        cbn [mbind result_bind].
      * destruct IH as (Hwf2 & Hlen & Hcfg2 & Hlen2 & Hg2 & Hb2 & He2).
        assert (set_pos_max_count (placement_manager st1)
                = set_pos_max_count (placement_manager st)) as Hmax
          by (by destruct Hcfg1 as (_ & _ & ? & _)).
        split_and!.
        -- done.
        -- simpl. by rewrite Hlen.
        -- by eapply config_preserved_trans.
        -- congruence.
        -- intros h. cbn [concat]. unfold calls_at in *.
           rewrite filter_app, length_app, Nat2Z.inj_add, Hg1, Hg2. lia.
        -- intros h. specialize (Hb1 h). specialize (Hb2 h).
           rewrite Hmax in Hb2. lia.
        -- intros [|k] os' log' e Hos Hlog Hin; simpl in Hos, Hlog.
           ++ injection Hos as <-. injection Hlog as <-. by apply He1.
           ++ destruct (He2 k os' log' e Hos Hlog Hin) as (? & ? & ?).
              split_and!; [done| |done].
              by apply (eligible_config os' _ _ _ Hcfg1).
      * destruct IH as (-> & Hg & Hug). split_and!; [done| |].
        -- apply length_zero_iff_nil. rewrite <- Hlen1, Hg. done.
        -- destruct Hcfg1 as (<- & _). done.
    + by destruct Htick as (? & ? & ? & _).
Qed.

(** X9.  While the detector reports a hold, a tick always succeeds, issues
    no call and leaves counters, corrections and bindings as they are.  The
    tick on which a hold ends issues no call either and leaves counters and
    corrections alone: it only reassigns the grid. *)
Theorem tick_during_gesture_is_silent (os : OS) (st : loop_state) :
  loop_wf st →
  ((MouseTracker.is_left_mouse_button_hold
      (left_button_down os) (time os) (mouse_tracker st)).1 = true →
   ∃ st', resize_window_tick os st = Ok (st', [])
          ∧ prev_is_hold st' = true
          ∧ set_pos_calls (placement_manager st')
            = set_pos_calls (placement_manager st)
          ∧ windows_attributes_dict (placement_manager st')
            = windows_attributes_dict (placement_manager st)
          ∧ grid (placement_manager st') = grid (placement_manager st)
          ∧ hwnd_to_cels (placement_manager st')
            = hwnd_to_cels (placement_manager st))
  ∧ (prev_is_hold st = true →
     ∀ st' log, resize_window_tick os st = Ok (st', log) →
       log = []
       ∧ set_pos_calls (placement_manager st')
         = set_pos_calls (placement_manager st)
       ∧ windows_attributes_dict (placement_manager st')
         = windows_attributes_dict (placement_manager st)).
Proof.
  intros Hwf. pose proof (resize_window_tick_spec os st Hwf) as Htick.
  split.
  - intros Hheld.
    destruct (resize_window_tick os st) as [[st' log]|e].
    + destruct Htick as (_ & _ & _ & Hprev & _ & _ & _ & Hquiet & Hbind).
      rewrite Hheld in Hprev.
      destruct (Hquiet (or_intror Hprev)) as (-> & ? & ?).
      destruct (Hbind Hprev) as [? ?]. by exists st'.
    + destruct Htick as (_ & _ & _ & _ & Hnot). congruence.
  - intros Hprev st' log Hrun. rewrite Hrun in Htick.
    destruct Htick as (_ & _ & _ & _ & _ & _ & _ & Hquiet & _).
    by apply Hquiet; left.
Qed.

Lemma tick_during_gesture_is_silent_witness :
  let os := mkOS [42] (λ _, mkWindowInfo true "a" (Some "a.exe"%string))
              (λ _, RECT.mk 100 100 880 680) (λ _, Some (RECT.mk 100 100 900 700))
              (0, 0) 0 true 1000 in
  let st := mkLoop (PlacementManager.init [scenario_spec] false [])
                   (MouseTracker.mk true 0 100) false in
  ∃ st', resize_window_tick os st = Ok (st', []) ∧ prev_is_hold st' = true.
Proof.
  intros os st.
  destruct (proj1 (tick_during_gesture_is_silent os st (loop_wf_init _ _ _ _ _))
              eq_refl) as (st' & Hrun & Hprev & _).
  exists st'. split; [exact Hrun|exact Hprev].
Defined.



(** X11.  Whatever the gestures and whatever windows come and go, over a
    whole run from the start the guarded calls to a handle number exactly
    its counter at the end, and so at most 5; the counter never passes the
    ceiling. *)
Theorem guarded_calls_total_at_most_ceiling
    (was : list WindowAttributes.t) (ug : bool) (g : list Cell.t)
    (mt : MouseTracker.t) (prev : bool) (ticks : list OS)
    (st' : loop_state) (logs : list call_log) (h : Z) :
  resize_window ticks (mkLoop (PlacementManager.init was ug g) mt prev)
  = Ok (st', logs) →
  Z.of_nat (length (calls_at GuardedCall h (concat logs)))
  = counter (placement_manager st') h
  ∧ 0 ≤ counter (placement_manager st') h ≤ 5
  ∧ (length (calls_at GuardedCall h (concat logs)) ≤ 5)%nat.
Proof.
  intros Hrun.
  pose proof (resize_window_spec ticks _ (loop_wf_init was ug g mt prev)) as Hspec.
  rewrite Hrun in Hspec.
  destruct Hspec as (_ & _ & _ & _ & Hg & Hb & _).
  specialize (Hg h). specialize (Hb h).
  change (counter (placement_manager (mkLoop (PlacementManager.init was ug g)
                                        mt prev)) h) with 0 in *.
  change (set_pos_max_count _) with 5 in Hb. lia.
Qed.

Lemma resize_window_total_grid_off ticks st :
  loop_wf st → using_grid (placement_manager st) = false →
  ∃ st' logs, resize_window ticks st = Ok (st', logs).
Proof.
  intros Hwf Hug. pose proof (resize_window_spec ticks st Hwf) as Hrun.
  destruct (resize_window ticks st) as [[st' logs]|e]; [by eauto|].
  destruct Hrun as (_ & _ & ?). congruence.
Qed.

Lemma guarded_calls_total_at_most_ceiling_witness :
  ∃ st' logs,
    resize_window (replicate 9 scenario_os) scenario_start = Ok (st', logs)
    ∧ (length (calls_at GuardedCall 42 (concat logs)) ≤ 5)%nat.
Proof.
  destruct (resize_window_total_grid_off (replicate 9 scenario_os) scenario_start
              (loop_wf_init _ _ _ _ _) eq_refl)
    as (st' & logs & Hrun).
  exists st', logs. split; [exact Hrun|].
  exact (proj2 (proj2 (guarded_calls_total_at_most_ceiling
                         [scenario_spec] false [] (MouseTracker.init 0 100) false
                         (replicate 9 scenario_os) st' logs 42 Hrun))).
Defined.

(** X12.  Over a whole run from the start, every call of every tick goes to
    a window that the tick enumerated and that is eligible under the
    configuration the loop started with: visible, of a tracked process, with
    a title that is not excluded for it.  No call makes a window topmost. *)
Theorem calls_only_to_eligible_windows
    (was : list WindowAttributes.t) (ug : bool) (g : list Cell.t)
    (mt : MouseTracker.t) (prev : bool) (ticks : list OS)
    (st' : loop_state) (logs : list call_log) :
  resize_window ticks (mkLoop (PlacementManager.init was ug g) mt prev)
  = Ok (st', logs) →
  ∀ k os log site c,
    ticks !! k = Some os → logs !! k = Some log → (site, c) ∈ log →
    swp_hwnd c ∈ EnumWindows os
    ∧ eligible os (PlacementManager.init was ug g) (swp_hwnd c)
    ∧ swp_insert_after c = HWND_NOTOPMOST.
Proof.
  intros Hrun k os log site c Hos Hlog Hin.
  pose proof (resize_window_spec ticks _ (loop_wf_init was ug g mt prev)) as Hspec.
  rewrite Hrun in Hspec.
  destruct Hspec as (_ & _ & _ & _ & _ & _ & He).
  exact (He k os log (site, c) Hos Hlog Hin).
Qed.

Lemma calls_only_to_eligible_windows_witness :
  ∃ st' logs,
    resize_window (replicate 2 scenario_os) scenario_start = Ok (st', logs)
    ∧ ∀ k os log site c,
        replicate 2 scenario_os !! k = Some os → logs !! k = Some log →
        (site, c) ∈ log →
        swp_hwnd c ∈ EnumWindows os.
Proof.
  destruct (resize_window_total_grid_off (replicate 2 scenario_os) scenario_start
              (loop_wf_init _ _ _ _ _) eq_refl)
    as (st' & logs & Hrun).
  exists st', logs. split; [exact Hrun|].
  intros k os log site c Hos Hlog Hin.
  exact (proj1 (calls_only_to_eligible_windows
                  [scenario_spec] false [] (MouseTracker.init 0 100) false
                  (replicate 2 scenario_os) st' logs Hrun
                  k os log site c Hos Hlog Hin)).
Defined.

(** * The grid settings and their editing *)

(** ** Order of the ids along a list *)

Lemma ids_sorted_lookup l :
  ids_sorted l ↔
  ∀ i j c d, l !! i = Some c → l !! j = Some d → (i < j)%nat →
             Cell.id c ≤ Cell.id d.
Proof.
  induction l as [|a l IH]; simpl.
  - split; [|done]. intros _ i j c d Hc. by rewrite lookup_nil in Hc.
  - rewrite IH, Forall_lookup. split.
    + intros [Ha Hl] i j c d Hi Hj Hij.
      destruct i as [|i], j as [|j]; try lia; simpl in *.
      * injection Hi as <-. by eapply Ha.
      * eapply Hl; [done..|lia].
    + intros H. split.
      * intros j d Hd. apply (H 0%nat (S j) a d); [done..|lia].
      * intros i j c d Hi Hj Hij. apply (H (S i) (S j)); [done..|lia].
Qed.

Lemma ids_increasing_lookup l :
  ids_increasing l ↔
  ∀ i j c d, l !! i = Some c → l !! j = Some d → (i < j)%nat →
             Cell.id c < Cell.id d.
Proof.
  induction l as [|a l IH]; simpl.
  - split; [|done]. intros _ i j c d Hc. by rewrite lookup_nil in Hc.
  - rewrite IH, Forall_lookup. split.
    + intros [Ha Hl] i j c d Hi Hj Hij.
      destruct i as [|i], j as [|j]; try lia; simpl in *.
      * injection Hi as <-. by eapply Ha.
      * eapply Hl; [done..|lia].
    + intros H. split.
      * intros j d Hd. apply (H 0%nat (S j) a d); [done..|lia].
      * intros i j c d Hi Hj Hij. apply (H (S i) (S j)); [done..|lia].
Qed.

Lemma ids_increasing_sorted l : ids_increasing l → ids_sorted l.
Proof.
  rewrite ids_increasing_lookup, ids_sorted_lookup.
  intros H i j c d Hi Hj Hij. specialize (H i j c d Hi Hj Hij). lia.
Qed.

(** Both orders depend on the ids by position only. *)
Lemma ids_sorted_same_ids l l' :
  Cell.id <$> l' = Cell.id <$> l → ids_sorted l → ids_sorted l'.
Proof.
  rewrite !ids_sorted_lookup. intros Hids H i j c d Hi Hj Hij.
  assert (∀ k e, l' !! k = Some e → ∃ e', l !! k = Some e' ∧ Cell.id e' = Cell.id e)
    as Hat.
  { intros k e He.
    assert ((Cell.id <$> l') !! k = Some (Cell.id e)) as Hk
      by by rewrite list_lookup_fmap, He.
    rewrite Hids, list_lookup_fmap in Hk.
    destruct (l !! k) as [e'|]; [|done]. injection Hk as Hk. by exists e'. }
  destruct (Hat i c Hi) as (c' & Hc' & <-).
  destruct (Hat j d Hj) as (d' & Hd' & <-).
  by eapply H.
Qed.

Lemma ids_increasing_same_ids l l' :
  Cell.id <$> l' = Cell.id <$> l → ids_increasing l → ids_increasing l'.
Proof.
  rewrite !ids_increasing_lookup. intros Hids H i j c d Hi Hj Hij.
  assert (∀ k e, l' !! k = Some e → ∃ e', l !! k = Some e' ∧ Cell.id e' = Cell.id e)
    as Hat.
  { intros k e He.
    assert ((Cell.id <$> l') !! k = Some (Cell.id e)) as Hk
      by by rewrite list_lookup_fmap, He.
    rewrite Hids, list_lookup_fmap in Hk.
    destruct (l !! k) as [e'|]; [|done]. injection Hk as Hk. by exists e'. }
  destruct (Hat i c Hi) as (c' & Hc' & <-).
  destruct (Hat j d Hj) as (d' & Hd' & <-).
  by eapply H.
Qed.

(** ** The sort of [_prepare_grid] *)

Lemma insert_by_id_perm c l : insert_by_id c l ≡ₚ c :: l.
Proof.
  induction l as [|d l IH]; simpl; [done|].
  destruct (Cell.id c <=? Cell.id d); [done|].
  rewrite IH. apply Permutation_swap.
Qed.

Lemma sort_by_id_perm l : sort_by_id l ≡ₚ l.
Proof.
  induction l as [|c l IH]; simpl; [done|].
  by rewrite insert_by_id_perm, IH.
Qed.

Lemma ids_sorted_insert_by_id c l :
  ids_sorted l → ids_sorted (insert_by_id c l).
Proof.
  induction l as [|d l IH]; simpl; [done|].
  intros [Hd Hl].
  destruct (Cell.id c <=? Cell.id d) eqn:E; simpl.
  - apply Z.leb_le in E. split_and!; [|done..].
    constructor; [done|].
    eapply Forall_impl; [exact Hd|]. simpl. intros; lia.
  - apply Z.leb_gt in E. split; [|by apply IH].
    rewrite insert_by_id_perm. constructor; [lia|done].
Qed.

Lemma ids_sorted_sort_by_id l : ids_sorted (sort_by_id l).
Proof.
  induction l as [|c l IH]; simpl; [done|]. by apply ids_sorted_insert_by_id.
Qed.

Lemma filter_insert_by_id k c l :
  filter (λ d, Cell.id d = k) (insert_by_id c l)
  = filter (λ d, Cell.id d = k) (c :: l).
Proof.
  induction l as [|d l IH]; simpl; [done|].
  destruct (Cell.id c <=? Cell.id d) eqn:E; simpl; [done|].
  apply Z.leb_gt in E.
  rewrite (filter_cons _ d), IH, !(filter_cons _ c), (filter_cons _ d).
  destruct (decide (Cell.id d = k)), (decide (Cell.id c = k)); try done; lia.
Qed.

Lemma filter_sort_by_id k l :
  filter (λ d, Cell.id d = k) (sort_by_id l) = filter (λ d, Cell.id d = k) l.
Proof.
  induction l as [|c l IH]; simpl; [done|].
  by rewrite filter_insert_by_id, !filter_cons, IH.
Qed.

Lemma sort_by_id_sorted l : ids_sorted l → sort_by_id l = l.
Proof.
  induction l as [|c l IH]; simpl; [done|].
  intros [Hc Hl]. rewrite (IH Hl).
  destruct l as [|d l]; simpl; [done|].
  apply Forall_cons in Hc as [Hd _].
  by rewrite (proj2 (Z.leb_le _ _) Hd).
Qed.

(** A list sorted by id is determined by its cells of each id, in order. *)
Lemma ids_sorted_determined l1 l2 :
  ids_sorted l1 → ids_sorted l2 →
  (∀ k, filter (λ d, Cell.id d = k) l1 = filter (λ d, Cell.id d = k) l2) →
  l1 = l2.
Proof.
  revert l2. induction l1 as [|c l1 IH]; intros l2 H1 H2 Hf.
  - destruct l2 as [|d l2]; [done|].
    specialize (Hf (Cell.id d)). rewrite filter_nil, filter_cons_True in Hf; done.
  - destruct l2 as [|d l2].
    { specialize (Hf (Cell.id c)). rewrite filter_nil, filter_cons_True in Hf; done. }
    simpl in H1, H2. destruct H1 as [Hc H1], H2 as [Hd H2].
    assert (Cell.id c ≤ Cell.id d) as Hcd.
    { pose proof (Hf (Cell.id d)) as Hk.
      rewrite (filter_cons_True _ d) in Hk by done.
      assert (d ∈ filter (λ e, Cell.id e = Cell.id d) (c :: l1)) as Hin
        by (rewrite Hk; left).
      apply list_elem_of_filter in Hin as [_ Hin].
      apply elem_of_cons in Hin as [->|Hin]; [lia|].
      rewrite Forall_forall in Hc. by apply Hc. }
    assert (Cell.id d ≤ Cell.id c) as Hdc.
    { pose proof (Hf (Cell.id c)) as Hk.
      rewrite (filter_cons_True _ c) in Hk by done.
      assert (c ∈ filter (λ e, Cell.id e = Cell.id c) (d :: l2)) as Hin
        by (rewrite <- Hk; left).
      apply list_elem_of_filter in Hin as [_ Hin].
      apply elem_of_cons in Hin as [->|Hin]; [lia|].
      rewrite Forall_forall in Hd. by apply Hd. }
    pose proof (Hf (Cell.id c)) as Hk.
    rewrite (filter_cons_True _ c), (filter_cons_True _ d) in Hk by (done || lia).
    injection Hk as -> Hk. f_equal. apply IH; [done..|].
    intros k. specialize (Hf k). rewrite !(filter_cons _ d) in Hf.
    destruct (decide (Cell.id d = k)); [by injection Hf|done].
Qed.

Lemma first_values_Forall2 ds cs :
  Forall2 first_value_is ds cs → first_values ds = cs.
Proof.
  induction 1 as [|d c ds cs (k & rest & ->) _ IH]; simpl; [done|]. by rewrite IH.
Qed.

Lemma first_values_stop ds cs rest :
  Forall2 first_value_is ds cs → first_values (ds ++ [] :: rest) = cs.
Proof.
  induction 1 as [|d c ds cs (k & rest' & ->) _ IH]; simpl; [done|]. by rewrite IH.
Qed.

Lemma first_values_length ds : (length (first_values ds) ≤ length ds)%nat.
Proof.
  induction ds as [|[|[k c] d] ds IH]; simpl; lia.
Qed.

(** ** The renumbering of [save_settings] *)

Lemma save_settings_ids_lookup l i :
  save_settings_ids l !! i = Cell_set_id (Z.of_nat i + 1) <$> l !! i.
Proof. unfold save_settings_ids. by rewrite list_lookup_imap. Qed.

Lemma save_settings_ids_increasing l : ids_increasing (save_settings_ids l).
Proof.
  apply ids_increasing_lookup. intros i j c d Hi Hj Hij.
  rewrite save_settings_ids_lookup in Hi, Hj.
  destruct (l !! i); [|done]. destruct (l !! j); [|done].
  injection Hi as <-. injection Hj as <-. simpl. lia.
Qed.

(** X13.  [Cell.__lt__] compares cells by their x coordinate and, when
    these are equal, by their y coordinate; the id and the owner play no
    part.  It is a strict order: irreflexive, asymmetric and transitive, and
    two cells are incomparable exactly when they have the same
    coordinates. *)
Theorem Cell_lt_lexicographic (a b c : Cell.t) :
  (Cell_lt a b = true ↔
     Cell.x a < Cell.x b ∨ (Cell.x a = Cell.x b ∧ Cell.y a < Cell.y b))
  ∧ Cell_lt a a = false
  ∧ (Cell_lt a b = true → Cell_lt b a = false)
  ∧ (Cell_lt a b = true → Cell_lt b c = true → Cell_lt a c = true)
  ∧ (Cell_lt a b = false ∧ Cell_lt b a = false ↔
       Cell.x a = Cell.x b ∧ Cell.y a = Cell.y b).
Proof.
  unfold Cell_lt.
  destruct (Z.eqb_spec (Cell.x a) (Cell.x b)),
           (Z.eqb_spec (Cell.x b) (Cell.x a)),
           (Z.eqb_spec (Cell.x b) (Cell.x c)),
           (Z.eqb_spec (Cell.x a) (Cell.x c)),
           (Z.eqb_spec (Cell.x a) (Cell.x a)); simpl;
    rewrite ?Z.ltb_lt, ?Z.ltb_ge; try lia.
Qed.

(** X14.  When the grid of the settings is a list of mappings whose first
    values are the cells [cs], the grid that [SettingsManager] hands out is
    the stable sort of [cs] by id: the same cells, in an order where the ids
    do not decrease, the cells of one id in the order of [cs]; it is the
    only such list.  If the ids of [cs] do not decrease already, the grid is
    [cs]. *)
Theorem prepare_grid_stable_sort
    (ds : list (list (string * Cell.t))) (cs : list Cell.t) :
  Forall2 first_value_is ds cs →
  let g := prepare_grid (GridOfDicts ds) in
  g ≡ₚ cs
  ∧ ids_sorted g
  ∧ (∀ k, filter (λ c, Cell.id c = k) g = filter (λ c, Cell.id c = k) cs)
  ∧ (∀ g', ids_sorted g' →
           (∀ k, filter (λ c, Cell.id c = k) g'
                 = filter (λ c, Cell.id c = k) cs) →
           g' = g)
  ∧ (ids_sorted cs → g = cs).
Proof.
  intros Hds g. subst g. simpl. rewrite (first_values_Forall2 _ _ Hds).
  split_and!.
  - apply sort_by_id_perm.
  - apply ids_sorted_sort_by_id.
  - intros k. apply filter_sort_by_id.
  - intros g' Hs Hf. apply ids_sorted_determined; [done|apply ids_sorted_sort_by_id|].
    intros k. by rewrite Hf, filter_sort_by_id.
  - apply sort_by_id_sorted.
Qed.

Lemma prepare_grid_stable_sort_witness :
  prepare_grid (GridOfDicts [[("b", Cell.mk 2 10 0 0)]; [("a", Cell.mk 1 20 0 0)];
                             [("c", Cell.mk 1 30 0 0)]])
  ≡ₚ [Cell.mk 2 10 0 0; Cell.mk 1 20 0 0; Cell.mk 1 30 0 0].
Proof.
  refine (proj1 (prepare_grid_stable_sort
                   [[("b", Cell.mk 2 10 0 0)]; [("a", Cell.mk 1 20 0 0)];
                    [("c", Cell.mk 1 30 0 0)]]
                   [Cell.mk 2 10 0 0; Cell.mk 1 20 0 0; Cell.mk 1 30 0 0] _)).
  repeat constructor; eexists _, _; reflexivity.
Defined.

(** X15.  Only the first value of each mapping of the grid is used, and an
    empty mapping ends the grid without an error: the cells of the mappings
    behind the first empty one are left out.  The grid never has more cells
    than the settings have entries. *)
Theorem prepare_grid_stops_at_empty_mapping
    (ds rest : list (list (string * Cell.t))) (cs : list Cell.t) :
  Forall2 first_value_is ds cs →
  prepare_grid (GridOfDicts (ds ++ [] :: rest)) = prepare_grid (GridOfDicts ds)
  ∧ prepare_grid (GridOfDicts (ds ++ [] :: rest)) ≡ₚ cs
  ∧ length (prepare_grid (GridOfDicts (ds ++ [] :: rest))) = length ds
  ∧ ∀ g, (length (prepare_grid g)
          ≤ match g with
            | GridOfDicts l => length l
            | GridOfCells l => length l
            end)%nat.
Proof.
  intros Hds. simpl.
  rewrite (first_values_stop _ _ rest Hds), (first_values_Forall2 _ _ Hds).
  split_and!; [done|apply sort_by_id_perm| |].
  - rewrite sort_by_id_perm. symmetry. by eapply Forall2_length.
  - intros [l|l]; simpl; [|done].
    rewrite sort_by_id_perm. apply first_values_length.
Qed.

Lemma prepare_grid_stops_at_empty_mapping_witness :
  prepare_grid (GridOfDicts ([[("a", Cell.mk 1 20 0 0)]]
                             ++ [] :: [[("b", Cell.mk 2 10 0 0)]]))
  = prepare_grid (GridOfDicts [[("a", Cell.mk 1 20 0 0)]]).
Proof.
  refine (proj1 (prepare_grid_stops_at_empty_mapping
                   [[("a", Cell.mk 1 20 0 0)]] [[("b", Cell.mk 2 10 0 0)]]
                   [Cell.mk 1 20 0 0] _)).
  repeat constructor; eexists _, _; reflexivity.
Defined.

(** X16.  Saving renumbers the cells by position: the cell at index [i]
    gets the id [i + 1], whatever the ids were, and keeps its coordinates
    and owner.  Renumbering twice is renumbering once; the ids then grow
    strictly, so a grid loaded from the saved cells, as mappings, has them
    in the order they were saved in. *)
Theorem save_settings_numbers_cells_by_position (l : list Cell.t) :
  let l' := save_settings_ids l in
  length l' = length l
  ∧ (∀ i c, l' !! i = Some c → Cell.id c = Z.of_nat i + 1)
  ∧ content <$> l' = content <$> l
  ∧ save_settings_ids l' = l'
  ∧ ids_increasing l'
  ∧ (∀ ds, Forall2 first_value_is ds l' → prepare_grid (GridOfDicts ds) = l').
Proof.
  intros l'. subst l'. split_and!.
  - apply length_imap.
  - intros i c. rewrite save_settings_ids_lookup.
    destruct (l !! i); [|done]. by intros [= <-].
  - apply list_eq. intros i.
    rewrite !list_lookup_fmap, save_settings_ids_lookup. by destruct (l !! i).
  - apply list_eq. intros i. rewrite !save_settings_ids_lookup.
    by destruct (l !! i).
  - apply save_settings_ids_increasing.
  - intros ds Hds. simpl. rewrite (first_values_Forall2 _ _ Hds).
    apply sort_by_id_sorted, ids_increasing_sorted, save_settings_ids_increasing.
Qed.

(** ** Moving cells in the list *)

Lemma lookup_insert_insert {A} (g : list A) (i j : nat) (ci cj : A) (k : nat) :
  i ≠ j → (i < length g)%nat → (j < length g)%nat →
  <[j := cj]> (<[i := ci]> g) !! k
  = if decide (k = j) then Some cj
    else if decide (k = i) then Some ci else g !! k.
Proof.
  intros Hij Hi Hj. destruct (decide (k = j)) as [->|Hkj].
  - rewrite list_lookup_insert_eq; [done|by rewrite length_insert].
  - rewrite list_lookup_insert_ne by done.
    destruct (decide (k = i)) as [->|Hki].
    + by rewrite list_lookup_insert_eq.
    + by rewrite list_lookup_insert_ne.
Qed.

(** The exchange that [up_cell] and [down_cell] make between the cells [a]
    at [i] and [b] at [j]. *)
Lemma exchange_ids (g : list Cell.t) (i j : nat) (a b : Cell.t) :
  i ≠ j → g !! i = Some a → g !! j = Some b →
  Cell.id <$> <[j := Cell_set_id (Cell.id b) a]>
                (<[i := Cell_set_id (Cell.id a) b]> g)
  = Cell.id <$> g.
Proof.
  intros Hij Ha Hb. apply list_eq. intros k.
  rewrite !list_lookup_fmap, lookup_insert_insert
    by (done || by eapply lookup_lt_Some).
  destruct (decide (k = j)) as [->|]; [by rewrite Hb|].
  destruct (decide (k = i)) as [->|]; [by rewrite Ha|done].
Qed.

Lemma exchange_back (g : list Cell.t) (i j : nat) (a b : Cell.t) :
  i ≠ j → g !! i = Some a → g !! j = Some b →
  <[i := Cell_set_id (Cell.id a) (Cell_set_id (Cell.id b) a)]>
    (<[j := Cell_set_id (Cell.id b) (Cell_set_id (Cell.id a) b)]>
       (<[j := Cell_set_id (Cell.id b) a]>
          (<[i := Cell_set_id (Cell.id a) b]> g)))
  = g.
Proof.
  intros Hij Ha Hb.
  pose proof (lookup_lt_Some _ _ _ Ha) as Hi.
  pose proof (lookup_lt_Some _ _ _ Hb) as Hj.
  apply list_eq. intros k.
  rewrite lookup_insert_insert by (rewrite ?length_insert; done).
  destruct (decide (k = i)) as [->|Hki]; [rewrite Ha; by destruct a|].
  destruct (decide (k = j)) as [->|Hkj]; [rewrite Hb; by destruct b|].
  rewrite lookup_insert_insert by done.
  by rewrite !decide_False by done.
Qed.

Lemma up_cell_moving (g : list Cell.t) (i : nat) :
  (1 < length g)%nat →
  up_cell (Some (S i)) g
  = match g !! i, g !! S i with
    | Some prev, Some cur =>
        Ok (<[S i := Cell_set_id (Cell.id cur) prev]>
              (<[i := Cell_set_id (Cell.id prev) cur]> g))
    | _, _ => Raise IndexError
    end.
Proof.
  intros Hlen. unfold up_cell.
  replace (S i - 1)%nat with i by lia.
  by rewrite (proj2 (Nat.ltb_lt _ _) Hlen).
Qed.

Lemma down_cell_moving (g : list Cell.t) (i n : nat) :
  (1 < length g)%nat → S i ≠ n →
  down_cell (Some i) n g
  = match g !! S i, g !! i with
    | Some next, Some cur =>
        Ok (<[i := Cell_set_id (Cell.id cur) next]>
              (<[S i := Cell_set_id (Cell.id next) cur]> g))
    | _, _ => Raise IndexError
    end.
Proof.
  intros Hlen Hn. unfold down_cell.
  replace (i + 1)%nat with (S i) by lia.
  rewrite (proj2 (Nat.ltb_lt _ _) Hlen).
  destruct (Z.eqb_spec (Z.of_nat i) (Z.of_nat n - 1)); [lia|done].
Qed.

Lemma up_cell_staying (g : list Cell.t) (i : nat) :
  i = 0%nat ∨ (length g ≤ 1)%nat → up_cell (Some i) g = Ok g.
Proof.
  intros H. unfold up_cell.
  destruct (Nat.eqb_spec i 0); simpl; [done|].
  destruct (Nat.ltb_spec 1 (length g)); [lia|done].
Qed.

Lemma down_cell_staying (g : list Cell.t) (i n : nat) :
  S i = n ∨ (length g ≤ 1)%nat → down_cell (Some i) n g = Ok g.
Proof.
  intros H. unfold down_cell.
  destruct (Z.eqb_spec (Z.of_nat i) (Z.of_nat n - 1)); simpl; [done|].
  destruct (Nat.ltb_spec 1 (length g)); [lia|done].
Qed.

(** X17.  Moving a cell up or down exchanges the coordinates and owners of
    the selected cell and its neighbour and leaves the ids where they were;
    no other cell changes.  Nothing happens for the first cell (up), for the
    last entry of the list box (down) and for a grid of fewer than two
    cells.  [IndexError] is raised only when the selection (up) or its
    successor (down) lies beyond the grid. *)
Theorem up_down_cell_exchange_contents (g : list Cell.t) (i : nat) :
  match up_cell (Some i) g with
  | Ok g' =>
      Cell.id <$> g' = Cell.id <$> g
      ∧ (i = 0%nat ∨ (length g ≤ 1)%nat → g' = g)
      ∧ (i ≠ 0%nat → (1 < length g)%nat →
           (i < length g)%nat
           ∧ content <$> g' !! (i - 1)%nat = content <$> g !! i
           ∧ content <$> g' !! i = content <$> g !! (i - 1)%nat
           ∧ ∀ k, k ≠ i → k ≠ (i - 1)%nat → g' !! k = g !! k)
  | Raise e => e = IndexError ∧ i ≠ 0%nat ∧ (1 < length g ≤ i)%nat
  end
  ∧ ∀ n,
      match down_cell (Some i) n g with
      | Ok g' =>
          Cell.id <$> g' = Cell.id <$> g
          ∧ (S i = n ∨ (length g ≤ 1)%nat → g' = g)
          ∧ (S i ≠ n → (1 < length g)%nat →
               (S i < length g)%nat
               ∧ content <$> g' !! S i = content <$> g !! i
               ∧ content <$> g' !! i = content <$> g !! S i
               ∧ ∀ k, k ≠ i → k ≠ S i → g' !! k = g !! k)
      | Raise e => e = IndexError ∧ S i ≠ n ∧ (1 < length g ≤ S i)%nat
      end.
Proof.
  split.
  - destruct (decide (i = 0%nat ∨ (length g ≤ 1)%nat)) as [Hs|Hm].
    { rewrite (up_cell_staying g i Hs). split_and!; [done|done|].
      intros; lia. }
    destruct i as [|i]; [by destruct Hm; left|].
    assert (1 < length g)%nat as Hlen by lia.
    rewrite (up_cell_moving g i Hlen).
    destruct (g !! i) as [prev|] eqn:Hp.
    2:{ apply lookup_ge_None in Hp. split_and!; (done || lia). }
    destruct (g !! S i) as [cur|] eqn:Hc.
    2:{ apply lookup_ge_None in Hc. split_and!; (done || lia). }
    pose proof (lookup_lt_Some _ _ _ Hp) as Hi.
    pose proof (lookup_lt_Some _ _ _ Hc) as HSi.
    split_and!.
    + apply exchange_ids; [lia|done..].
    + intros; lia.
    + intros _ _. replace (S i - 1)%nat with i by lia. split_and!; [done| | |].
      * rewrite lookup_insert_insert, decide_False, decide_True by (done || lia).
        done.
      * rewrite lookup_insert_insert, decide_True by (done || lia).
        by rewrite ?Hp.
      * intros k Hk1 Hk2.
        rewrite lookup_insert_insert by (done || lia).
        by rewrite !decide_False by done.
  - intros n.
    destruct (decide (S i = n ∨ (length g ≤ 1)%nat)) as [Hs|Hm].
    { rewrite (down_cell_staying g i n Hs). split_and!; [done|done|].
      intros; lia. }
    assert (1 < length g)%nat as Hlen by lia.
    assert (S i ≠ n) as Hn by (intros ?; apply Hm; by left).
    rewrite (down_cell_moving g i n Hlen Hn).
    destruct (g !! S i) as [next|] eqn:Hx.
    2:{ apply lookup_ge_None in Hx. split_and!; (done || lia). }
    destruct (g !! i) as [cur|] eqn:Hc.
    2:{ apply lookup_ge_None in Hc. apply lookup_lt_Some in Hx. lia. }
    pose proof (lookup_lt_Some _ _ _ Hx) as HSi.
    pose proof (lookup_lt_Some _ _ _ Hc) as Hi.
    split_and!.
    + apply exchange_ids; [lia|done..].
    + intros; lia.
    + intros _ _. split_and!; [done| | |].
      * rewrite lookup_insert_insert, decide_False, decide_True by (done || lia).
        done.
      * rewrite lookup_insert_insert, decide_True by (done || lia).
        by rewrite ?Hp.
      * intros k Hk1 Hk2.
        rewrite lookup_insert_insert by (done || lia).
        by rewrite !decide_False by done.
Qed.

(** X18.  Moving a cell up and then moving the cell above it down, or the
    other way round, gives the grid back: the two handlers are inverse to
    each other on the cells of the grid. *)
Theorem up_cell_down_cell_inverse (g g' : list Cell.t) (i : nat) :
  (S i < length g)%nat →
  (up_cell (Some (S i)) g = Ok g' → down_cell (Some i) (length g') g' = Ok g)
  ∧ (down_cell (Some i) (length g) g = Ok g' → up_cell (Some (S i)) g' = Ok g).
Proof.
  intros HSi.
  assert (1 < length g)%nat as Hlen by lia.
  destruct (lookup_lt_is_Some_2 g i) as [a Ha]; [lia|].
  destruct (lookup_lt_is_Some_2 g (S i)) as [b Hb]; [lia|].
  split.
  - rewrite (up_cell_moving g i Hlen), Ha, Hb. intros [= <-].
    rewrite !length_insert.
    rewrite down_cell_moving by (rewrite ?length_insert; lia).
    rewrite !lookup_insert_insert by (done || lia).
    rewrite decide_True, decide_False, decide_True by (done || lia).
    simpl. f_equal. apply exchange_back; [lia|done..].
  - rewrite (down_cell_moving g i _ Hlen) by lia. rewrite Ha, Hb. intros [= <-].
    rewrite up_cell_moving by (rewrite ?length_insert; lia).
    rewrite !lookup_insert_insert by (done || lia).
    rewrite decide_True, decide_False, decide_True by (done || lia).
    simpl. f_equal. apply exchange_back; [lia|done..].
Qed.

Lemma up_cell_down_cell_inverse_witness :
  down_cell (Some 0%nat) 2 [Cell.mk 1 20 0 7; Cell.mk 2 10 0 0]
  = Ok [Cell.mk 1 10 0 0; Cell.mk 2 20 0 7].
Proof.
  refine (proj1 (up_cell_down_cell_inverse
                   [Cell.mk 1 10 0 0; Cell.mk 2 20 0 7]
                   [Cell.mk 1 20 0 7; Cell.mk 2 10 0 0] 0 _) _).
  - simpl. lia.
  - reflexivity.
Defined.

(** ** Editing keeps the ids in order *)

Lemma up_cell_ids sel g g' :
  up_cell sel g = Ok g' → Cell.id <$> g' = Cell.id <$> g.
Proof.
  destruct sel as [i|]; [|by intros [= <-]].
  destruct (decide (i = 0%nat ∨ (length g ≤ 1)%nat)) as [Hs|Hm].
  { rewrite (up_cell_staying g i Hs). by intros [= <-]. }
  destruct i as [|i]; [by destruct Hm; left|].
  rewrite up_cell_moving by lia.
  destruct (g !! i) eqn:Hp; [|done]. destruct (g !! S i) eqn:Hc; [|done].
  intros [= <-]. apply exchange_ids; [lia|done..].
Qed.

Lemma down_cell_ids sel n g g' :
  down_cell sel n g = Ok g' → Cell.id <$> g' = Cell.id <$> g.
Proof.
  destruct sel as [i|]; [|by intros [= <-]].
  destruct (decide (S i = n ∨ (length g ≤ 1)%nat)) as [Hs|Hm].
  { rewrite (down_cell_staying g i n Hs). by intros [= <-]. }
  rewrite down_cell_moving by lia.
  destruct (g !! S i) eqn:Hx; [|done]. destruct (g !! i) eqn:Hc; [|done].
  intros [= <-]. apply exchange_ids; [lia|done..].
Qed.

Lemma insert_same_id (g : list Cell.t) (i : nat) (c c' : Cell.t) :
  g !! i = Some c → Cell.id c' = Cell.id c →
  Cell.id <$> <[i := c']> g = Cell.id <$> g.
Proof.
  intros Hc Hid. rewrite list_fmap_insert, Hid.
  apply list_insert_id. by rewrite list_lookup_fmap, Hc.
Qed.

Lemma save_cell_new (g : list Cell.t) (idx x y : Z) :
  idx < 0 →
  save_cell g idx (Some x) (Some y)
  = Saved (g ++ [Cell.mk (match last g with
                          | Some c => Cell.id c + 1
                          | None => 1
                          end) x y 0]).
Proof.
  intros Hidx. unfold save_cell.
  destruct (Z.leb_spec 0 idx); [lia|done].
Qed.

Lemma save_cell_shape (g : list Cell.t) (idx : Z) (xe ye : option Z) (g' : list Cell.t) :
  save_cell g idx xe ye = Saved g' ∨ save_cell g idx xe ye = SaveValueError g' →
  Cell.id <$> g' = Cell.id <$> g
  ∨ ∃ x y, g' = g ++ [Cell.mk (match last g with
                               | Some c => Cell.id c + 1
                               | None => 1
                               end) x y 0].
Proof.
  unfold save_cell. destruct (0 <=? idx).
  - destruct (g !! Z.to_nat idx) as [c|] eqn:Hc; [|by intros [|]].
    destruct xe as [x|]; [|intros [|[= <-]]; [done|by left]].
    destruct ye as [y|]; intros [H|H]; try done; injection H as <-; left.
    + rewrite list_insert_insert_eq. by eapply insert_same_id.
    + by eapply insert_same_id.
  - destruct xe as [x|], ye as [y|]; intros [H|H]; try done;
      injection H as <-; eauto.
Qed.

Lemma ids_sorted_delete k g : ids_sorted g → ids_sorted (delete k g).
Proof.
  revert k. induction g as [|a g IH]; intros [|k]; simpl; try done.
  - by intros [_ ?].
  - intros [Ha Hg]. split; [by apply Forall_delete|by apply IH].
Qed.

Lemma ids_increasing_delete k g : ids_increasing g → ids_increasing (delete k g).
Proof.
  revert k. induction g as [|a g IH]; intros [|k]; simpl; try done.
  - by intros [_ ?].
  - intros [Ha Hg]. split; [by apply Forall_delete|by apply IH].
Qed.

Lemma ids_sorted_last g d :
  ids_sorted g → last g = Some d → Forall (λ e, Cell.id e ≤ Cell.id d) g.
Proof.
  induction g as [|a g IH]; [done|]. intros [Ha Hg] Hl.
  destruct g as [|b g].
  { injection Hl as <-. by constructor. }
  constructor; [|by apply IH].
  rewrite Forall_forall in Ha. apply Ha. by apply last_Some_elem_of.
Qed.

Lemma ids_sorted_snoc g c :
  ids_sorted g → Forall (λ d, Cell.id d ≤ Cell.id c) g → ids_sorted (g ++ [c]).
Proof.
  induction g as [|a g IH]; simpl; [done|].
  intros [Ha Hg] Hc. apply Forall_cons in Hc as [Hac Hc].
  split; [|by apply IH]. apply Forall_app. split; [done|by constructor].
Qed.

Lemma ids_increasing_snoc g c :
  ids_increasing g → Forall (λ d, Cell.id d < Cell.id c) g →
  ids_increasing (g ++ [c]).
Proof.
  induction g as [|a g IH]; simpl; [done|].
  intros [Ha Hg] Hc. apply Forall_cons in Hc as [Hac Hc].
  split; [|by apply IH]. apply Forall_app. split; [done|by constructor].
Qed.

(** The id that [save_cell] gives a new cell is above the ids of a sorted
    grid. *)
Lemma new_id_above g :
  ids_sorted g →
  Forall (λ d, Cell.id d < match last g with
                           | Some c => Cell.id c + 1
                           | None => 1
                           end) g.
Proof.
  intros Hs. destruct (last g) as [d|] eqn:Hl.
  - eapply Forall_impl; [by apply ids_sorted_last|]. simpl. intros; lia.
  - apply last_None in Hl as ->. constructor.
Qed.

Lemma grid_edit_shape g g' :
  grid_edit g g' →
  Cell.id <$> g' = Cell.id <$> g
  ∨ (∃ k, g' = delete k g)
  ∨ (∃ x y, g' = g ++ [Cell.mk (match last g with
                                | Some c => Cell.id c + 1
                                | None => 1
                                end) x y 0]).
Proof.
  intros [sel H|sel n H|sel H|idx x y H|idx x y H].
  - left. by eapply up_cell_ids.
  - left. by eapply down_cell_ids.
  - unfold remove_cell in H. destruct sel as [k|]; [|injection H as <-; by left].
    destruct (g !! k); [|done]. injection H as <-. right; left. by exists k.
  - destruct (save_cell_shape g idx x y g' (or_introl H)); eauto.
  - destruct (save_cell_shape g idx x y g' (or_intror H)); eauto.
Qed.

(** X19.  The actions of the grid tab (moving a cell up or down, removing a
    cell, saving a new or an edited cell, also when the save fails on an
    entry) keep the order of the ids: a grid whose ids do not decrease, or
    grow strictly, along the list still has that property after any
    sequence of actions. *)
Theorem grid_edits_keep_ids_in_order (g g' : list Cell.t) :
  rtc grid_edit g g' →
  (ids_sorted g → ids_sorted g') ∧ (ids_increasing g → ids_increasing g').
Proof.
  induction 1 as [g|g g1 g' Hstep _ [IHs IHi]]; [done|].
  apply grid_edit_shape in Hstep as [Hids|[[k ->]|(x & y & ->)]].
  - split; intros Hg.
    + by eapply IHs, ids_sorted_same_ids.
    + by eapply IHi, ids_increasing_same_ids.
  - split; intros Hg.
    + by apply IHs, ids_sorted_delete.
    + by apply IHi, ids_increasing_delete.
  - split; intros Hg.
    + apply IHs, ids_sorted_snoc; [done|].
      eapply Forall_impl; [by apply new_id_above|]. simpl. intros; lia.
    + apply IHi, ids_increasing_snoc; [done|].
      by apply new_id_above, ids_increasing_sorted.
Qed.

Lemma grid_edits_keep_ids_in_order_witness :
  ids_increasing [Cell.mk 1 10 0 0; Cell.mk 4 20 0 0].
Proof.
  refine (proj2 (grid_edits_keep_ids_in_order
                   [Cell.mk 1 10 0 0; Cell.mk 3 20 0 0]
                   [Cell.mk 1 10 0 0; Cell.mk 4 20 0 0] _) _).
  - apply (rtc_l _ _ [Cell.mk 1 10 0 0; Cell.mk 3 20 0 0; Cell.mk 4 7 8 0]).
    { by apply (edit_save _ _ (-1) (Some 7) (Some 8)). }
    apply (rtc_l _ _ [Cell.mk 1 10 0 0; Cell.mk 3 7 8 0; Cell.mk 4 20 0 0]).
    { by apply (edit_up _ _ (Some 2%nat)). }
    apply rtc_once. by apply (edit_remove _ _ (Some 1%nat)).
  - simpl. repeat constructor; lia.
Defined.

(** X20.  Saving a new cell appends one cell with the entered coordinates
    and no owner; its id is 1 in an empty grid and, in a grid whose ids do
    not decrease, larger than every id there.  Saving an edited cell writes
    the two coordinates of that cell and nothing else.  When an entry is
    not a number, a new cell is not added, and an edited cell keeps the new
    x coordinate if only the y entry failed.  [IndexError] arises only for
    an index beyond the grid. *)
Theorem save_cell_effects (g : list Cell.t) (idx : Z) (xe ye : option Z) :
  match save_cell g idx xe ye with
  | Saved g' =>
      ∃ x y, xe = Some x ∧ ye = Some y
      ∧ (idx < 0 →
           ∃ c, g' = g ++ [c] ∧ content c = (x, y, 0)
                ∧ (g = [] → Cell.id c = 1)
                ∧ (ids_sorted g → Forall (λ d, Cell.id d < Cell.id c) g))
      ∧ (0 ≤ idx →
           ∃ c, g !! Z.to_nat idx = Some c
                ∧ g' = <[Z.to_nat idx := Cell.mk (Cell.id c) x y (Cell.hwnd c)]> g)
  | SaveValueError g' =>
      (xe = None ∨ ye = None)
      ∧ (idx < 0 ∨ xe = None → g' = g)
      ∧ (0 ≤ idx → ∀ x, xe = Some x →
           ∃ c, g !! Z.to_nat idx = Some c
                ∧ g' = <[Z.to_nat idx :=
                           Cell.mk (Cell.id c) x (Cell.y c) (Cell.hwnd c)]> g)
  | SaveIndexError => 0 ≤ idx ∧ (length g ≤ Z.to_nat idx)%nat
  end.
Proof.
  destruct (Z.leb_spec 0 idx) as [Hidx|Hidx].
  - unfold save_cell. rewrite (proj2 (Z.leb_le _ _) Hidx).
    destruct (g !! Z.to_nat idx) as [c|] eqn:Hc.
    2:{ split; [done|]. by apply lookup_ge_None. }
    destruct xe as [x|].
    2:{ split_and!; [by left|done|done]. }
    destruct ye as [y|].
    + exists x, y. split_and!; [done|done|lia|]. intros _. exists c.
      split; [done|]. by rewrite list_insert_insert_eq.
    + split_and!; [by right|intros [|]; [lia|done]|].
      intros _ x' [= <-]. by exists c.
  - destruct xe as [x|], ye as [y|].
    + rewrite save_cell_new by done. exists x, y. split_and!; [done|done| |lia].
      intros _. eexists. split_and!; [reflexivity|done| |].
      * by intros ->.
      * apply new_id_above.
    + unfold save_cell. destruct (Z.leb_spec 0 idx); [lia|].
      split_and!; [by right|done|lia].
    + unfold save_cell. destruct (Z.leb_spec 0 idx); [lia|].
      split_and!; [by left|done|lia].
    + unfold save_cell. destruct (Z.leb_spec 0 idx); [lia|].
      split_and!; [by left|done|lia].
Qed.

(** ** The daemon and the cells of the grid *)

Lemma geometry_alter_set_hwnd h i (g : list Cell.t) :
  geometry <$> alter (Cell.set_hwnd h) i g = geometry <$> g.
Proof.
  revert i. induction g as [|c g IH]; intros [|i]; try done.
  cbn. f_equal. apply IH.
Qed.

Lemma geometry_get_cell hwnd p :
  geometry <$> grid (get_cell hwnd p).2 = geometry <$> grid p.
Proof.
  unfold get_cell. destruct (hwnd_to_cels p !! hwnd); [done|].
  destruct (free_cell p); [|done]. apply geometry_alter_set_hwnd.
Qed.

Lemma geometry_move_to_cell hwnd dest p :
  geometry <$> grid (move_to_cell hwnd dest p) = geometry <$> grid p.
Proof.
  unfold move_to_cell.
  destruct (decide (hwnd_at p dest = hwnd)); [done|].
  pose proof (geometry_get_cell hwnd p) as Hg.
  destruct (get_cell hwnd p) as [[curr|] p1]; simpl in Hg.
  - destruct (decide (_ ∧ _)); [done|].
    destruct (decide (hwnd_at (write_hwnd curr 0 p1) dest = 0)); simpl;
      by rewrite !geometry_alter_set_hwnd.
  - destruct (decide (hwnd_at p1 dest = 0)); [|done]. simpl.
    by rewrite geometry_alter_set_hwnd.
Qed.

Lemma geometry_grid_target l t wa hwnd pm :
  geometry <$> grid (grid_target l t wa hwnd pm).2 = geometry <$> grid pm.
Proof.
  unfold grid_target. destruct (using_grid pm); [|done].
  pose proof (geometry_get_cell hwnd pm) as Hg.
  by destruct (get_cell hwnd pm) as [[c|] p1].
Qed.

Lemma geometry_process_window os hwnd name pm pm' log :
  process_window os hwnd name pm = Ok (pm', log) →
  geometry <$> grid pm' = geometry <$> grid pm.
Proof.
  unfold process_window.
  destruct (windows_attributes_dict pm !! name) as [wa|]; [|done].
  destruct (guarded_call_detail hwnd wa pm) as (calls & -> & _).
  cbn [mbind result_bind].
  destruct (measure _ wa) as [[cw ch] wa'].
  destruct (GetWindowRect os hwnd) as [r|]; [|by intros [= <- _]].
  match goal with
  | |- context [grid_target ?l ?t ?w ?h ?q] =>
      pose proof (geometry_grid_target l t w h q) as Hg;
      destruct (grid_target l t w h q) as [[[[[? ?] ?] ?] ?] p1]
  end.
  simpl in Hg. destruct (_ || _); by intros [= <- _].
Qed.

Lemma geometry_process_windows os l : ∀ pm pm' log,
  process_windows os l pm = Ok (pm', log) →
  geometry <$> grid pm' = geometry <$> grid pm.
Proof.
  induction l as [|[hwnd name] l IH]; intros pm pm' log; cbn [process_windows].
  - by intros [= <- _].
  - destruct (process_window os hwnd name pm) as [[p1 l1]|] eqn:E1; [|done].
    cbn [mbind result_bind].
    destruct (process_windows os l p1) as [[p2 l2]|] eqn:E2; [|done].
    cbn [mbind result_bind]. intros [= <- _].
    rewrite (IH _ _ _ E2). by eapply geometry_process_window.
Qed.

Lemma geometry_processing_window_change_pos os pm pm' :
  processing_window_change_pos os pm = Ok pm' →
  geometry <$> grid pm' = geometry <$> grid pm.
Proof.
  unfold processing_window_change_pos.
  destruct (_ || _); [by intros [= <-]|].
  destruct (GetWindowRect os _) as [r|]; [|by intros [= <-]].
  destruct (search_nearest_cell _ _ pm) as [cell|]; [|done].
  cbn [mbind result_bind]. intros [= <-]. apply geometry_move_to_cell.
Qed.

Lemma geometry_resize_window_tick os st st' log :
  resize_window_tick os st = Ok (st', log) →
  geometry <$> grid (placement_manager st')
  = geometry <$> grid (placement_manager st).
Proof.
  unfold resize_window_tick.
  destruct (MouseTracker.is_left_mouse_button_hold _ _ _) as [is_hold mt].
  assert (grid (enum_windows os (placement_manager st))
          = grid (placement_manager st)) as He
    by apply (enum_windows_frame os (EnumWindows os) (placement_manager st)).
  destruct (negb (prev_is_hold st) && negb is_hold).
  - unfold processing_detected_windows.
    destruct (process_windows os _ _) as [[p1 l1]|] eqn:E1; [|done].
    apply geometry_process_windows in E1. cbn [mbind result_bind].
    destruct (prev_is_hold st && negb is_hold).
    + destruct (processing_window_change_pos os p1) as [p2|] eqn:E2; [|done].
      apply geometry_processing_window_change_pos in E2.
      cbn [mbind result_bind]. intros [= <- _]. simpl. congruence.
    + cbn [mbind result_bind]. intros [= <- _]. simpl. congruence.
  - cbn [mbind result_bind].
    destruct (prev_is_hold st && negb is_hold).
    + destruct (processing_window_change_pos os _) as [p2|] eqn:E2; [|done].
      apply geometry_processing_window_change_pos in E2.
      cbn [mbind result_bind]. intros [= <- _]. simpl. congruence.
    + cbn [mbind result_bind]. intros [= <- _]. simpl. congruence.
Qed.

(** X21.  The daemon never renumbers or moves a cell: over any run of the
    loop, from any state, the grid keeps its cells in place with their ids
    and coordinates; the owner is the only field of a cell it writes. *)
Theorem daemon_keeps_cell_ids_and_coordinates
    (ticks : list OS) (st st' : loop_state) (logs : list call_log) :
  resize_window ticks st = Ok (st', logs) →
  geometry <$> grid (placement_manager st')
  = geometry <$> grid (placement_manager st).
Proof.
  revert st st' logs.
  induction ticks as [|os ticks IH]; intros st st' logs; cbn [resize_window].
  - by intros [= <- _].
  - destruct (resize_window_tick os st) as [[st1 l1]|] eqn:E1; [|done].
    cbn [mbind result_bind].
    destruct (resize_window ticks st1) as [[st2 l2]|] eqn:E2; [|done].
    cbn [mbind result_bind]. intros [= <- _].
    rewrite (IH _ _ _ E2). by eapply geometry_resize_window_tick.
Qed.

Lemma daemon_keeps_cell_ids_and_coordinates_witness :
  ∃ st' logs,
    resize_window (replicate 2 scenario_os)
      (mkLoop (PlacementManager.init [scenario_spec] true
                 [Cell.mk 1 0 0 0; Cell.mk 2 500 0 0])
              (MouseTracker.init 0 100) false)
    = Ok (st', logs)
    ∧ geometry <$> grid (placement_manager st') = [(1, 0, 0); (2, 500, 0)].
Proof.
  pose proof (resize_window_spec (replicate 2 scenario_os)
                (mkLoop (PlacementManager.init [scenario_spec] true
                           [Cell.mk 1 0 0 0; Cell.mk 2 500 0 0])
                        (MouseTracker.init 0 100) false)
                (loop_wf_init _ _ _ _ _)) as Hspec.
  destruct (resize_window _ _) as [[st' logs]|e] eqn:Hrun.
  - exists st', logs. split; [reflexivity|].
    exact (daemon_keeps_cell_ids_and_coordinates _ _ _ _ Hrun).
  - destruct Hspec as (_ & Hg & _). discriminate Hg.
Defined.

Lemma ids_of_geometry (g g' : list Cell.t) :
  geometry <$> g' = geometry <$> g → Cell.id <$> g' = Cell.id <$> g.
Proof.
  intros H.
  assert (∀ l : list Cell.t, Cell.id <$> l = (λ t, t.1.1) <$> (geometry <$> l))
    as Hc by (intros l; by rewrite <- list_fmap_compose).
  by rewrite !Hc, H.
Qed.

(** X22.  With a grid loaded from mappings, at any moment of the daemon's
    run (the daemon keeps the ids and coordinates of the loaded grid), a
    window without a cell is given a free cell of the least id, and among
    the free cells of that id the first one: cells are handed out in the
    order of their ids. *)
Theorem new_window_gets_free_cell_of_least_id
    (ds : list (list (string * Cell.t))) (p : PlacementManager.t)
    (hwnd : Z) (cell : nat) (c : Cell.t) :
  geometry <$> grid p = geometry <$> prepare_grid (GridOfDicts ds) →
  hwnd_to_cels p !! hwnd = None →
  (get_cell hwnd p).1 = Some cell →
  grid p !! cell = Some c →
  (Cell.hwnd c ∉ all_hwnd p)
  ∧ ∀ j d, grid p !! j = Some d → Cell.hwnd d ∉ all_hwnd p →
           Cell.id c ≤ Cell.id d ∧ (Cell.id d = Cell.id c → (cell ≤ j)%nat).
Proof.
  intros Hgeo Hnone Hget Hc.
  assert (ids_sorted (grid p)) as Hs.
  { eapply ids_sorted_same_ids; [by apply ids_of_geometry|].
    apply ids_sorted_sort_by_id. }
  assert (free_cell p = Some cell) as Hf.
  { unfold get_cell in Hget. rewrite Hnone in Hget.
    by destruct (free_cell p). }
  apply free_cell_Some in Hf as (c' & Hc' & Hfree & Hfirst).
  assert (c' = c) as -> by congruence.
  split; [done|]. intros j d Hd Hdfree.
  destruct (decide (j < cell)%nat) as [Hlt|Hge].
  { destruct Hdfree. by eapply Hfirst. }
  destruct (decide (j = cell)) as [->|Hne].
  { assert (d = c) as -> by congruence. split; [lia|done]. }
  split; [|lia].
  rewrite ids_sorted_lookup in Hs. apply (Hs cell j c d Hc Hd). lia.
Qed.

Lemma new_window_gets_free_cell_of_least_id_witness :
  let p := with_all_hwnd {[7; 9]}
             (PlacementManager.init [] true
                [Cell.mk 1 0 0 7; Cell.mk 2 500 0 3; Cell.mk 3 900 0 0]) in
  (get_cell 9 p).1 = Some 1%nat
  ∧ Cell.id (Cell.mk 2 500 0 3) ≤ Cell.id (Cell.mk 3 900 0 0).
Proof.
  intros p.
  assert ((get_cell 9 p).1 = Some 1%nat) as Hget by (by vm_compute).
  assert (Cell.hwnd (Cell.mk 3 900 0 0) ∉ all_hwnd p) as Hfree
    by (simpl; set_solver).
  split; [exact Hget|].
  exact (proj1 (proj2 (new_window_gets_free_cell_of_least_id
                         [[("c", Cell.mk 3 900 0 0)]; [("a", Cell.mk 1 0 0 7)];
                          [("b", Cell.mk 2 500 0 3)]]
                         p 9 1 (Cell.mk 2 500 0 3) eq_refl eq_refl Hget eq_refl)
                 2%nat (Cell.mk 3 900 0 0) eq_refl Hfree)).
Defined.
